(** * Building-segmentation frontend: workflow controller and its collaborators

    Shallow embedding of

    - [frontend/src/services/api.ts]            (module [Api]),
    - [frontend/src/App.tsx]                    (module [App]),
    - [frontend/src/components/ImageUpload.tsx] (module [ImageUpload]),
    - the palette component                     (module [ColorPalette]).

    Every handler of the source is an event handler of a single-threaded
    UI loop.  A handler is embedded as the list of effects it performs, in
    program order; the answers of the environment (the outcome of a
    [fetch], the value of [Date.now()], the data URL produced by the file
    reader) are arguments of the handler.  [setState(prev => ...)] is the
    effect [SetState f], with [f] the updater of the source. *)

From stdpp Require Import gmap strings list fin_maps pretty sorting.
From Stdlib Require Import ZArith Lia.
From Stdlib Require QArith_base.

#[local] Set Warnings "-clear-no-such-hyp".

Open Scope string_scope.

(** ** JavaScript values shared by the components *)

(** What a [catch] clause can receive.  Everything thrown by the modelled
    code is an [Error] (also [TypeError] of a failed [fetch] and
    [SyntaxError] of [response.json()]); [NotAnError] keeps the
    [error instanceof Error ? ... : ...] tests of the source meaningful. *)
Inductive Thrown : Type :=
| ErrorObj (message : string)
| NotAnError.

(** A settled promise. *)
Inductive Promise (A : Type) : Type :=
| Resolved (a : A)
| Rejected (e : Thrown).
Arguments Resolved {A} a.
Arguments Rejected {A} e.

(** The browser [File]: the three attributes the code reads. *)
Record File : Type := mkFile {
  file_name : string;
  file_type : string;
  file_size : Z
}.

(** [a || b] on an optional string: [undefined], [null] and the empty
    string are falsy. *)
Definition or_default (a : option string) (b : string) : string :=
  match a with
  | Some EmptyString => b
  | Some s => s
  | None => b
  end.

(** [for (let i = start; i <= bound; i += inc)]: the values taken by [i].
    [fuel] bounds the number of iterations. *)
Fixpoint for_le (fuel : nat) (i bound inc : Z) : list Z :=
  match fuel with
  | O => []
  | S fuel' => if (i <=? bound)%Z then i :: for_le fuel' (i + inc) bound inc else []
  end.

(** ** Types of [@/types]

    The interfaces of [@/types], as declared in the sources (the text
    that follows [components/ProcessingStates.tsx]). *)

(** [interface Mask { id: number; coordinates: number[][]; color?: string }] *)
Record Mask : Type := mkMask {
  mask_id : Z;
  mask_coordinates : list (list Z);
  mask_color : option string
}.

(** [interface UploadResponse { success: boolean; filename?: string;
    message?: string }] *)
Record UploadResponse : Type := mkUploadResponse {
  upload_success : bool;
  upload_filename : option string;
  upload_message : option string
}.

(** [interface GenerateMasksResponse { masks: Mask[]; success: boolean;
    message?: string }] *)
Record GenerateMasksResponse : Type := mkGenerateMasksResponse {
  gen_success : bool;
  gen_masks : list Mask;
  gen_message : option string
}.

(** [interface ApplyColorResponse { success: boolean;
    colored_image_url?: string; message?: string }] *)
Record ApplyColorResponse : Type := mkApplyColorResponse {
  apply_success : bool;
  apply_colored_image_url : option string;
  apply_message : option string
}.

(** ** The API client, [services/api.ts] *)

Module Api.

(** Outcome of [await fetch(...)] followed by reading the body: the
    promise of [fetch] rejects (network error), or it resolves to a
    response with a status and a body reader ([response.json()] or
    [response.blob()]) that itself resolves or rejects. *)
Inductive Fetch (B : Type) : Type :=
| FetchRejected (e : Thrown)
| FetchResponse (status : Z) (body : Promise B).
Arguments FetchRejected {B} e.
Arguments FetchResponse {B} status body.

(** [response.ok]: the status is in the range 200-299. *)
Definition ok (status : Z) : bool := (200 <=? status)%Z && (status <=? 299)%Z.

(** [makeRequest]: the [catch] logs and rethrows, so the promise is the
    one of the [try] block; the second component is what goes to
    [console.error]. *)
Definition makeRequest {T : Type} (net : Fetch T) : Promise T * list Thrown :=
  let attempt :=
    match net with
    | FetchRejected e => Rejected e
    | FetchResponse status body =>
        if negb (ok status)
        then Rejected (ErrorObj ("HTTP error! status: " +:+ pretty status))
        else body
    end in
  match attempt with
  | Resolved a => (Resolved a, [])
  | Rejected e => (Rejected e, [e])
  end.

Definition uploadImage (net : Fetch UploadResponse) : Promise UploadResponse :=
  match net with
  | FetchRejected e => Rejected e
  | FetchResponse status body =>
      if negb (ok status)
      then Rejected (ErrorObj ("Upload failed: " +:+ pretty status))
      else body
  end.

Definition generateMasks (net : Fetch GenerateMasksResponse)
  : Promise GenerateMasksResponse :=
  match net with
  | FetchRejected e => Rejected e
  | FetchResponse status body =>
      if negb (ok status)
      then Rejected (ErrorObj ("Mask generation failed: " +:+ pretty status))
      else body
  end.

Definition applyColor (net : Fetch ApplyColorResponse) : Promise ApplyColorResponse :=
  fst (makeRequest net).

(** The payload of [downloadResult] is an opaque [Blob]. *)
Definition downloadResult {Blob : Type} (net : Fetch Blob) : Promise Blob :=
  match net with
  | FetchRejected e => Rejected e
  | FetchResponse status body =>
      if negb (ok status)
      then Rejected (ErrorObj ("Download failed: " +:+ pretty status))
      else body
  end.

(** [healthCheck], the body being [{ status }]. *)
Definition healthCheck (net : Fetch string) : Promise string * list Thrown :=
  makeRequest net.

End Api.

(** ** The workflow controller, [App.tsx] *)

Inductive Step : Type := SUpload | SSelect | SColor | SDownload.


Record AppState : Type := mkAppState {
  uploadedImage : option File;
  imagePreview : option string;
  masks : list Mask;
  selectedMasks : list Z;
  appliedColors : gmap Z string;
  isProcessing : bool;
  progress : Z;
  error : option string;
  currentStep : Step
}.

(** The argument of [toast(...)]; [variant] is absent or ["destructive"]. *)
Record Toast : Type := mkToast {
  toast_title : string;
  toast_description : string;
  toast_variant : option string
}.

(** What a handler does, one constructor per kind of statement with an
    effect.  [Sleep], [RemoteUpload], [RemoteGenerateMasks] and
    [ReadAsDataURL] are the points where the handler gives control back
    to the event loop. *)
Inductive Effect : Type :=
| SetState (f : AppState → AppState)
| ShowToast (t : Toast)
| ConsoleError (label : string) (e : Thrown)
| Sleep (ms : Z)
| RemoteUpload (image : File)
| RemoteGenerateMasks (image : File) (clickPoints : list (list Z))
| ReadAsDataURL (file : File)
| SetPreview (p : option string)
| SetFileName (n : option string).

Definition is_await (e : Effect) : bool :=
  match e with
  | Sleep _ | RemoteUpload _ | RemoteGenerateMasks _ _ | ReadAsDataURL _ => true
  | _ => false
  end.

Definition is_remote (e : Effect) : bool :=
  match e with
  | RemoteUpload _ | RemoteGenerateMasks _ _ => true
  | _ => false
  end.

Definition is_setState (e : Effect) : bool :=
  match e with
  | SetState _ => true
  | _ => false
  end.

Definition is_error_toast (e : Effect) : bool :=
  match e with
  | ShowToast t => bool_decide (toast_variant t = Some "destructive")
  | _ => false
  end.

(** Effect of one statement on the application state. *)
Definition apply_effect (s : AppState) (e : Effect) : AppState :=
  match e with
  | SetState f => f s
  | _ => s
  end.

(** A handler run to completion with nothing interleaved. *)
Definition exec (t : list Effect) (s : AppState) : AppState :=
  foldl apply_effect s t.

Definition remote_calls (t : list Effect) : nat := length (filter is_remote t).
Definition state_updates (t : list Effect) : nat := length (filter is_setState t).
Definition reports_error (t : list Effect) : bool := existsb is_error_toast t.

Module App.

Definition initial : AppState :=
  {| uploadedImage := None; imagePreview := None; masks := [];
     selectedMasks := []; appliedColors := ∅; isProcessing := false;
     progress := 0; error := None; currentStep := SUpload |}.

(** [{ ...prev, progress: i }] *)
Definition set_progress (i : Z) (prev : AppState) : AppState :=
  {| uploadedImage := uploadedImage prev; imagePreview := imagePreview prev;
     masks := masks prev; selectedMasks := selectedMasks prev;
     appliedColors := appliedColors prev; isProcessing := isProcessing prev;
     progress := i; error := error prev; currentStep := currentStep prev |}.

(** [{ ...prev, isProcessing: false, error: msg }], the updater of both
    [catch] clauses. *)
Definition set_failed (msg : string) (prev : AppState) : AppState :=
  {| uploadedImage := uploadedImage prev; imagePreview := imagePreview prev;
     masks := masks prev; selectedMasks := selectedMasks prev;
     appliedColors := appliedColors prev; isProcessing := false;
     progress := progress prev; error := Some msg;
     currentStep := currentStep prev |}.

(** The simulated progress loop: one update and one timer per round. *)
Definition progress_loop (inc ms : Z) : list Effect :=
  flat_map (λ i, [SetState (set_progress i); Sleep ms]) (for_le 101 0 100 inc).

(** [error instanceof Error ? error.message : fallback] *)
Definition message_of (e : Thrown) (fallback : string) : string :=
  match e with
  | ErrorObj m => m
  | NotAnError => fallback
  end.

(** *** handleImageUpload *)

Definition upload_started (file : File) (preview : string) (prev : AppState)
  : AppState :=
  {| uploadedImage := Some file; imagePreview := Some preview;
     masks := masks prev; selectedMasks := selectedMasks prev;
     appliedColors := appliedColors prev; isProcessing := true;
     progress := 0; error := None; currentStep := SSelect |}.

Definition upload_finished (prev : AppState) : AppState :=
  {| uploadedImage := uploadedImage prev; imagePreview := imagePreview prev;
     masks := masks prev; selectedMasks := selectedMasks prev;
     appliedColors := appliedColors prev; isProcessing := false;
     progress := 100; error := error prev; currentStep := currentStep prev |}.

Definition upload_catch (e : Thrown) : list Effect :=
  [ ConsoleError "Upload error:" e;
    SetState (set_failed (message_of e "Upload failed"));
    ShowToast {| toast_title := "Upload failed";
                 toast_description := message_of e "Please try again.";
                 toast_variant := Some "destructive" |} ].

(** What runs once [apiService.uploadImage] has settled. *)
Definition upload_settled (net : Api.Fetch UploadResponse) : list Effect :=
  match Api.uploadImage net with
  | Resolved uploadResponse =>
      if upload_success uploadResponse
      then [ ShowToast {| toast_title := "Image uploaded successfully";
                          toast_description := "Your image is ready for processing.";
                          toast_variant := None |};
             SetState upload_finished ]
      else upload_catch
             (ErrorObj (or_default (upload_message uploadResponse) "Upload failed"))
  | Rejected e => upload_catch e
  end.

Definition handleImageUpload (file : File) (preview : string)
    (net : Api.Fetch UploadResponse) : list Effect :=
  SetState (upload_started file preview)
    :: progress_loop 10 100
    ++ RemoteUpload file
    :: upload_settled net.

(** *** handleCanvasClick *)

Definition mask_started (prev : AppState) : AppState :=
  {| uploadedImage := uploadedImage prev; imagePreview := imagePreview prev;
     masks := masks prev; selectedMasks := selectedMasks prev;
     appliedColors := appliedColors prev; isProcessing := true;
     progress := 0; error := None; currentStep := currentStep prev |}.

Definition mask_added (newMask : Mask) (prev : AppState) : AppState :=
  {| uploadedImage := uploadedImage prev; imagePreview := imagePreview prev;
     masks := masks prev ++ [newMask]; selectedMasks := selectedMasks prev;
     appliedColors := appliedColors prev; isProcessing := false;
     progress := 100; error := error prev; currentStep := SColor |}.

Definition mask_catch (e : Thrown) : list Effect :=
  [ ConsoleError "Mask generation error:" e;
    SetState (set_failed (message_of e "Mask generation failed"));
    ShowToast {| toast_title := "Mask generation failed";
                 toast_description := message_of e "Please try again.";
                 toast_variant := Some "destructive" |} ].

(** [response.masks[0]?.coordinates || []] *)
Definition first_coordinates (ms : list Mask) : list (list Z) :=
  match ms with
  | m :: _ => mask_coordinates m
  | [] => []
  end.

(** What runs once [apiService.generateMasks] has settled; [now] is the
    value of [Date.now()] at that moment. *)
Definition mask_settled (now : Z) (net : Api.Fetch GenerateMasksResponse)
  : list Effect :=
  match Api.generateMasks net with
  | Resolved response =>
      if gen_success response
      then [ SetState (mask_added
                         {| mask_id := now;
                            mask_coordinates := first_coordinates (gen_masks response);
                            mask_color := None |});
             ShowToast {| toast_title := "Mask generated successfully";
                          toast_description := "Click on the mask to apply colors.";
                          toast_variant := None |} ]
      else mask_catch
             (ErrorObj (or_default (gen_message response) "Mask generation failed"))
  | Rejected e => mask_catch e
  end.

(** Everything up to and including the remote call. *)
Definition mask_issued (image : File) (x y : Z) : list Effect :=
  SetState mask_started
    :: progress_loop 20 200
    ++ [RemoteGenerateMasks image [[x; y]]].

(** [state] is the state the handler closes over: the one of the render
    in which the click happens. *)
Definition handleCanvasClick (state : AppState) (x y : Z) (now : Z)
    (net : Api.Fetch GenerateMasksResponse) : list Effect :=
  match uploadedImage state with
  | None => []
  | Some image =>
      if isProcessing state then []
      else mask_issued image x y ++ mask_settled now net
  end.

(** *** handleColorSelect *)

Definition colors_applied (selected : list Z) (color : string) (prev : AppState)
  : AppState :=
  {| uploadedImage := uploadedImage prev; imagePreview := imagePreview prev;
     masks := masks prev; selectedMasks := selectedMasks prev;
     appliedColors :=
       foldl (λ newAppliedColors maskId, <[maskId := color]> newAppliedColors)
             (appliedColors prev) selected;
     isProcessing := isProcessing prev; progress := progress prev;
     error := error prev; currentStep := SDownload |}.

Definition handleColorSelect (state : AppState) (color : string) : list Effect :=
  if decide (length (selectedMasks state) = 0)
  then [ ShowToast {| toast_title := "No mask selected";
                      toast_description := "Click on a mask to select it for coloring.";
                      toast_variant := Some "destructive" |} ]
  else [ SetState (colors_applied (selectedMasks state) color);
         ShowToast {| toast_title := "Color applied";
                      toast_description :=
                        "Applied " +:+ color +:+ " to selected mask(s).";
                      toast_variant := None |} ].

(** *** handleMaskSelect *)

(** [l.includes(maskId) ? l.filter(id => id !== maskId) : [...l, maskId]].
    Identifiers are integers (they come from [Date.now()]). *)
Definition toggle (maskId : Z) (l : list Z) : list Z :=
  if bool_decide (maskId ∈ l)
  then filter (λ id, id ≠ maskId) l
  else l ++ [maskId].

Definition mask_toggled (maskId : Z) (prev : AppState) : AppState :=
  {| uploadedImage := uploadedImage prev; imagePreview := imagePreview prev;
     masks := masks prev; selectedMasks := toggle maskId (selectedMasks prev);
     appliedColors := appliedColors prev; isProcessing := isProcessing prev;
     progress := progress prev; error := error prev;
     currentStep := currentStep prev |}.

Definition handleMaskSelect (maskId : Z) : list Effect :=
  [ SetState (mask_toggled maskId) ].

(** *** handleDownload *)

Definition handleDownload (state : AppState) : list Effect :=
  if decide (size (appliedColors state) = 0)
  then [ ShowToast {| toast_title := "No colors applied";
                      toast_description := "Apply colors to masks before downloading.";
                      toast_variant := Some "destructive" |} ]
  else [ ShowToast {| toast_title := "Download started";
                      toast_description := "Preparing your colored image...";
                      toast_variant := None |};
         ShowToast {| toast_title := "Download complete";
                      toast_description :=
                        "Your colored building segmentation has been downloaded.";
                      toast_variant := None |} ].

End App.

(** ** The upload component, [components/ImageUpload.tsx] *)

(** The part of a handler that runs before control returns to the event
    loop (up to and including its first await point), and what is left to
    run afterwards. *)
Fixpoint until_await (t : list Effect) : list Effect * list Effect :=
  match t with
  | [] => ([], [])
  | e :: t' =>
      if is_await e then ([e], t')
      else let '(now, later) := until_await t' in (e :: now, later)
  end.

Module ImageUpload.

Definition validTypes : list string :=
  ["image/jpeg"; "image/jpg"; "image/png"; "image/webp"].

Definition maxSize : Z := 10 * 1024 * 1024.

(** The boolean returned by [validateFile] and the notice it raises. *)
Definition validateFile (file : File) : bool * list Effect :=
  if negb (bool_decide (file_type file ∈ validTypes))
  then (false,
        [ ShowToast {| toast_title := "Invalid file type";
                       toast_description := "Please upload a JPEG, PNG, or WebP image.";
                       toast_variant := Some "destructive" |} ])
  else if (file_size file >? maxSize)%Z
  then (false,
        [ ShowToast {| toast_title := "File too large";
                       toast_description := "Please upload an image smaller than 10MB.";
                       toast_variant := Some "destructive" |} ])
  else (true, []).

(** [handleFile].  [onImageUpload] is the prop of the component, the
    controller's handler; [result] is what the file reader delivers to
    [onload] ([None]: the read fails and [onload] never runs).  The call
    [onImageUpload(file, result)] returns at the first await of the
    handler, then the component raises its own notice. *)
Definition handleFile (onImageUpload : File → string → list Effect)
    (file : File) (result : option string) : list Effect :=
  let '(valid, notices) := validateFile file in
  if negb valid then notices
  else
    notices ++ ReadAsDataURL file ::
    match result with
    | None => []
    | Some result =>
        let '(now, later) := until_await (onImageUpload file result) in
        SetPreview (Some result) :: SetFileName (Some (file_name file)) :: now
        ++ ShowToast {| toast_title := "Image uploaded successfully";
                        toast_description :=
                          file_name file +:+
                          " has been uploaded and is ready for processing.";
                        toast_variant := None |}
        :: later
    end.

(** The state of the component itself: [preview] and [fileName]. *)
Record View : Type := mkView {
  view_preview : option string;
  view_fileName : option string
}.

Definition initial_view : View := mkView None None.

Definition apply_view (v : View) (e : Effect) : View :=
  match e with
  | SetPreview p => mkView p (view_fileName v)
  | SetFileName n => mkView (view_preview v) n
  | _ => v
  end.

Definition exec_view (t : list Effect) (v : View) : View := foldl apply_view v t.

(** [handleRemoveImage].  It also empties the file input of the page,
    which is part of neither state. *)
Definition handleRemoveImage : list Effect := [SetPreview None; SetFileName None].

(** [handleFileInput]; [files] is [e.target.files] ([None] for [null]). *)
Definition handleFileInput (onImageUpload : File → string → list Effect)
    (files : option (list File)) (result : option string) : list Effect :=
  match files with
  | Some (file :: _) => handleFile onImageUpload file result
  | _ => []
  end.

End ImageUpload.

(** ** The palette component *)

Module ColorPalette.

(** The updater given to [setRecentColors] by [handleColorSelect]:
    [[color, ...prev.filter(c => c !== color).slice(0, 7)]]. *)
Definition recent_selected (color : string) (prev : list string) : list string :=
  let filtered := filter (λ c, c ≠ color) prev in
  color :: take 7 filtered.

(** The updater of [removeRecentColor]. *)
Definition removeRecentColor (colorToRemove : string) (prev : list string)
  : list string :=
  filter (λ color, color ≠ colorToRemove) prev.

(** [handleColorSelect]: what is emitted to the controller through the
    prop [onColorSelect], and the update of the recent colors. *)
Definition handleColorSelect (onColorSelect : string → list Effect)
    (color : string) (recentColors : list string) : list Effect * list string :=
  (onColorSelect color, recent_selected color recentColors).

(** The two ways the user changes the recent colors. *)
Inductive Action : Type :=
| Pick (color : string)
| Remove (color : string).

Global Instance Action_eq_dec : EqDecision Action.
Proof. solve_decision. Defined.

Definition act (a : Action) (recentColors : list string) : list string :=
  match a with
  | Pick color => recent_selected color recentColors
  | Remove color => removeRecentColor color recentColors
  end.

(** The recent colors after a history of actions (oldest action first),
    starting from [useState([])]. *)
Definition recentColors_after (history : list Action) : list string :=
  foldl (λ recentColors a, act a recentColors) [] history.

(** Position in the history of the latest selection of [c], if any. *)
Fixpoint last_pick (history : list Action) (c : string) : option nat :=
  match history with
  | [] => None
  | a :: history' =>
      match last_pick history' c with
      | Some t => Some (S t)
      | None => if decide (a = Pick c) then Some 0 else None
      end
  end.

(** [c] was selected more recently than [d]. *)
Definition fresher (history : list Action) (c d : string) : Prop :=
  ∃ tc td, last_pick history c = Some tc ∧ last_pick history d = Some td ∧ td < tc.

(** Every recent colour has been selected at some time, and a colour
    nearer to the front was selected later. *)
Definition by_recency (history : list Action) (l : list string) : Prop :=
  (∀ d, d ∈ l → is_Some (last_pick history d)) ∧ StronglySorted (fresher history) l.

End ColorPalette.

(** ** Operations of the controller and the event loop *)

Inductive Op : Type :=
| SubmitImage (file : File) (preview : string) (net : Api.Fetch UploadResponse)
| RequestMaskAtPoint (x y : Z) (now : Z) (net : Api.Fetch GenerateMasksResponse)
| AssignColor (color : string)
| ToggleMaskSelection (maskId : Z)
| Download.

(** The handler behind each operation, started in [state]. *)
Definition op_trace (state : AppState) (o : Op) : list Effect :=
  match o with
  | SubmitImage file preview net => App.handleImageUpload file preview net
  | RequestMaskAtPoint x y now net => App.handleCanvasClick state x y now net
  | AssignColor color => App.handleColorSelect state color
  | ToggleMaskSelection maskId => App.handleMaskSelect maskId
  | Download => App.handleDownload state
  end.

(** The operation run to completion from [state], nothing interleaved. *)
Definition run_op (state : AppState) (o : Op) : AppState :=
  exec (op_trace state o) state.

(** What the rendered page lets the user start: [handleFile] forwards
    validated files only, and [handleMaskSelect] is bound to the overlays
    of the masks in [state.masks]. *)
Definition offered (state : AppState) (o : Op) : Prop :=
  match o with
  | SubmitImage file _ _ => (ImageUpload.validateFile file).1 = true
  | ToggleMaskSelection maskId => maskId ∈ mask_id <$> masks state
  | _ => True
  end.

(** The event loop: the application state and the handlers that are
    waiting at an await point, each with what it still has to run. *)
Record Config : Type := mkConfig {
  app_state : AppState;
  pending : list (list Effect)
}.

Inductive loop_step : Config → Config → Prop :=
| step_start s ts o :
    offered s o →
    loop_step (mkConfig s ts)
              (mkConfig (exec (until_await (op_trace s o)).1 s)
                        ((until_await (op_trace s o)).2 :: ts))
| step_resume s ts1 k ts2 :
    loop_step (mkConfig s (ts1 ++ k :: ts2))
              (mkConfig (exec (until_await k).1 s)
                        (ts1 ++ (until_await k).2 :: ts2)).

(** States the application can be in, under every interleaving of the
    handlers. *)
Definition reachable (s : AppState) : Prop :=
  ∃ ts, rtc loop_step (mkConfig App.initial []) (mkConfig s ts).

(** The invariant of the data model: every selected identifier is the
    identifier of a mask. *)
Definition selection_valid (s : AppState) : Prop :=
  ∀ maskId, maskId ∈ selectedMasks s → maskId ∈ mask_id <$> masks s.


(** Concrete data for the examples. *)
Definition photo : File :=
  {| file_name := "photo.jpg"; file_type := "image/jpeg"; file_size := 2 * 1024 * 1024 |}.

Definition big_png : File :=
  {| file_name := "big.png"; file_type := "image/png"; file_size := 15 * 1024 * 1024 |}.

Definition upload_ok : Api.Fetch UploadResponse :=
  Api.FetchResponse 200
    (Resolved {| upload_success := true; upload_filename := Some "photo.jpg";
                 upload_message := None |}).

Definition upload_flagged : Api.Fetch UploadResponse :=
  Api.FetchResponse 200
    (Resolved {| upload_success := false; upload_filename := None;
                 upload_message := Some "disk full" |}).

Definition masks_ok : Api.Fetch GenerateMasksResponse :=
  Api.FetchResponse 200
    (Resolved {| gen_success := true;
                 gen_masks := [ {| mask_id := 0; mask_coordinates := [[1; 2]; [3; 4]]%Z;
                                   mask_color := None |} ];
                 gen_message := None |}).

Definition masks_empty : Api.Fetch GenerateMasksResponse :=
  Api.FetchResponse 200
    (Resolved {| gen_success := true; gen_masks := []; gen_message := None |}).

Definition offline {B : Type} : Api.Fetch B :=
  Api.FetchRejected (ErrorObj "Failed to fetch").

(** ** The status component, [components/ProcessingStates.tsx] *)

(** Truthiness of a string that may be absent: [undefined], [null] and
    the empty string are falsy. *)
Definition truthy (a : option string) : bool :=
  match a with
  | Some EmptyString => false
  | Some _ => true
  | None => false
  end.

Module ProcessingStates.

Record Props : Type := mkProps {
  p_isProcessing : bool;
  p_progress : Z;
  p_status : string;
  p_error : option string;
  p_masksGenerated : Z
}.

Inductive Icon : Type := AlertCircle | Loader2 | CheckCircle | Building2.

Definition getStatusIcon (p : Props) : Icon :=
  if truthy (p_error p) then AlertCircle
  else if p_isProcessing p then Loader2
  else if (p_masksGenerated p >? 0)%Z then CheckCircle
  else Building2.

Definition getStatusColor (p : Props) : string :=
  if truthy (p_error p) then "destructive"
  else if p_isProcessing p then "secondary"
  else if (p_masksGenerated p >? 0)%Z then "default"
  else "secondary".

Definition getStatusText (p : Props) : string :=
  if truthy (p_error p) then "Error"
  else if p_isProcessing p then "Processing"
  else if (p_masksGenerated p >? 0)%Z then "Complete"
  else "Ready".

(** The text of the badge. *)
Definition badge (p : Props) : string :=
  if (p_masksGenerated p >? 0)%Z then pretty (p_masksGenerated p) +:+ " masks"
  else p_status p.

(** The list of processing steps with their [done] marks. *)
Definition steps (p : Props) : list (string * bool) :=
  [ ("Uploading image", (p_progress p >? 0)%Z);
    ("Analyzing building structure", (p_progress p >? 20)%Z);
    ("Generating segmentation masks", (p_progress p >? 50)%Z);
    ("Preparing for coloring", (p_progress p >? 80)%Z);
    ("Ready for interaction", (p_progress p >=? 100)%Z) ].

(** Which blocks of the card are rendered. *)
Definition shows_progress (p : Props) : bool := p_isProcessing p.
Definition shows_error (p : Props) : bool := truthy (p_error p).
Definition shows_steps (p : Props) : bool := p_isProcessing p.
Definition shows_instructions (p : Props) : bool :=
  negb (p_isProcessing p) && negb (truthy (p_error p))
  && bool_decide (p_masksGenerated p = 0%Z).
Definition shows_success (p : Props) : bool :=
  (p_masksGenerated p >? 0)%Z && negb (p_isProcessing p).

End ProcessingStates.

(** ** What [App] renders from its state *)

Module AppView.

Definition step_name (s : Step) : string :=
  match s with
  | SUpload => "upload"
  | SSelect => "select"
  | SColor => "color"
  | SDownload => "download"
  end.

(** The props given to [ProcessingStates]. *)
Definition processing_props (state : AppState) : ProcessingStates.Props :=
  {| ProcessingStates.p_isProcessing := isProcessing state;
     ProcessingStates.p_progress := progress state;
     ProcessingStates.p_status := step_name (currentStep state);
     ProcessingStates.p_error := error state;
     ProcessingStates.p_masksGenerated := Z.of_nat (length (masks state)) |}.

(** [state.imagePreview && (...)]: the canvas with the image. *)
Definition canvas_shown (state : AppState) : bool := truthy (imagePreview state).

(** The [disabled] prop of the palette and of the download button. *)
Definition palette_disabled (state : AppState) : bool :=
  bool_decide (length (selectedMasks state) = 0).
Definition download_disabled (state : AppState) : bool :=
  bool_decide (size (appliedColors state) = 0).

(** The overlay of a mask: [mask.color || "transparent"], the opacity
    [mask.color ? 0.3 : 0], and the ring of a selected mask. *)
Definition overlay_backgroundColor (mask : Mask) : string :=
  or_default (mask_color mask) "transparent".
Definition overlay_opacity (mask : Mask) : QArith_base.Q :=
  if truthy (mask_color mask) then QArith_base.Qmake 3 10 else QArith_base.Qmake 0 1.
Definition overlay_ring (state : AppState) (mask : Mask) : bool :=
  bool_decide (mask_id mask ∈ selectedMasks state).

End AppView.

(** The scenario of a session: upload, one mask, select it, colour it. *)
Definition preview_url : string := "data:image/jpeg;base64,/9j/4AAQ".

Definition s_uploaded : AppState :=
  run_op App.initial (SubmitImage photo preview_url upload_ok).

Definition s_masked : AppState :=
  run_op s_uploaded (RequestMaskAtPoint 100 150 1700000000000 masks_ok).

Definition s_selected : AppState :=
  run_op s_masked (ToggleMaskSelection 1700000000000).

Definition s_colored : AppState :=
  run_op s_selected (AssignColor "#FF6B6B").

Definition masks_flagged : Api.Fetch GenerateMasksResponse :=
  Api.FetchResponse 200
    (Resolved {| gen_success := false; gen_masks := [];
                 gen_message := Some "no object at this point" |}).

Definition color_flagged : Api.Fetch ApplyColorResponse :=
  Api.FetchResponse 200
    (Resolved {| apply_success := false; apply_colored_image_url := None;
                 apply_message := Some "unknown mask" |}).

(** Eight selections of distinct preset colours. *)
Definition eight_picks : list ColorPalette.Action :=
  ColorPalette.Pick <$>
    ["#FF6B6B"; "#4ECDC4"; "#45B7D1"; "#96CEB4"; "#FFEAA7"; "#DDA0DD"; "#98D8C8";
     "#F7DC6F"].

(** ** Notions used in the statements *)







(** An effect that keeps a property of the state, from whatever state. *)
Definition stable (I : AppState → Prop) (e : Effect) : Prop :=
  ∀ s, I s → I (apply_effect s e).

(** The property holds in the configuration and every waiting handler
    will keep it. *)
Definition config_inv (I : AppState → Prop) (c : Config) : Prop :=
  I (app_state c) ∧ Forall (Forall (stable I)) (pending c).


(** * Properties *)

Close Scope string_scope.

(** ** Traces *)

Lemma exec_app t1 t2 s : exec (t1 ++ t2)%list s = exec t2 (exec t1 s).
Proof. apply foldl_app. Qed.

Lemma remote_calls_app t1 t2 :
  remote_calls (t1 ++ t2)%list = remote_calls t1 + remote_calls t2.
Proof. unfold remote_calls. by rewrite filter_app, length_app. Qed.

Lemma reports_error_app t1 t2 :
  reports_error (t1 ++ t2)%list = reports_error t1 || reports_error t2.
Proof. apply existsb_app. Qed.

Lemma progress_loop_upload :
  for_le 101 0 100 10 = [0; 10; 20; 30; 40; 50; 60; 70; 80; 90; 100]%Z.
Proof. reflexivity. Qed.

Lemma progress_loop_mask : for_le 101 0 100 20 = [0; 20; 40; 60; 80; 100]%Z.
Proof. reflexivity. Qed.

(** ** handleCanvasClick *)

Section CanvasClick.
Variables (x y now : Z) (net : Api.Fetch GenerateMasksResponse).


Lemma handleCanvasClick_accepted s image :
  uploadedImage s = Some image → isProcessing s = false →
  App.handleCanvasClick s x y now net
  = (App.mask_issued image x y ++ App.mask_settled now net)%list.
Proof. unfold App.handleCanvasClick. by intros -> ->. Qed.

Lemma mask_issued_exec s image :
  exec (App.mask_issued image x y) s = App.set_progress 100 (App.mask_started s).
Proof. reflexivity. Qed.



End CanvasClick.



(** The processing flag is the only guard and uploads share it: when an
    upload is started and ends while a mask request is waiting for its
    answer, the flag is down again and a further click is accepted. *)
Remark flag_shared_with_upload :
  let waiting := exec (App.mask_issued photo 100 150) s_uploaded in
  let after_upload := run_op waiting (SubmitImage photo preview_url upload_ok) in
  isProcessing waiting = true ∧ isProcessing after_upload = false ∧
  remote_calls (op_trace after_upload (RequestMaskAtPoint 120 160 2 masks_ok)) = 1.
Proof. by repeat split. Qed.

(** C10: a successful response whose [masks] array is empty still adds
    one mask, with no coordinates, ends the processing at 100 percent,
    moves to the colour step and records no error. *)
Theorem requestMaskAtPoint_empty_masks s image x y now status message :
  uploadedImage s = Some image → isProcessing s = false → Api.ok status = true →
  let net := Api.FetchResponse status
               (Resolved {| gen_success := true; gen_masks := [];
                            gen_message := message |}) in
  let s' := run_op s (RequestMaskAtPoint x y now net) in
  masks s' = (masks s ++ [ {| mask_id := now; mask_coordinates := [];
                              mask_color := None |} ])%list ∧
  isProcessing s' = false ∧ progress s' = 100%Z ∧ currentStep s' = SColor ∧
  error s' = None ∧
  reports_error (op_trace s (RequestMaskAtPoint x y now net)) = false.
Proof.
  intros Himg Hidle Hok net s'. subst s' net. unfold run_op. cbn [op_trace].
  rewrite (handleCanvasClick_accepted _ _ _ _ _ _ Himg Hidle).
  rewrite exec_app, reports_error_app, mask_issued_exec.
  unfold App.mask_settled, Api.generateMasks. rewrite Hok. cbn [negb gen_success].
  repeat split.
Qed.

Lemma requestMaskAtPoint_empty_masks_witness :
  masks (run_op s_uploaded (RequestMaskAtPoint 100 150 7 masks_empty))
  = [ {| mask_id := 7; mask_coordinates := []; mask_color := None |} ] ∧
  currentStep (run_op s_uploaded (RequestMaskAtPoint 100 150 7 masks_empty)) = SColor.
Proof.
  pose proof (requestMaskAtPoint_empty_masks s_uploaded photo 100 150 7 200 None
                eq_refl eq_refl eq_refl) as H.
  cbv zeta in H. destruct H as (Hm & _ & _ & Hs & _). split; [exact Hm | exact Hs].
Defined.

(** ** handleColorSelect *)

Lemma lookup_colors_applied (selected : list Z) (c : string) (m : gmap Z string) i :
  foldl (λ acc maskId, <[maskId := c]> acc) m selected !! i
  = if decide (i ∈ selected) then Some c else m !! i.
Proof.
  revert m. induction selected as [| a selected IH]; intros m; cbn [foldl].
  - case_decide as H; [by apply elem_of_nil in H | done].
  - rewrite IH. rewrite (decide_ext _ _ _ _ (elem_of_cons selected i a)).
    destruct (decide (i ∈ selected)) as [Hin | Hout].
    + by rewrite decide_True by by right.
    + destruct (decide (i = a)) as [-> | Hne].
      * rewrite decide_True by by left. apply lookup_insert_eq.
      * rewrite decide_False by (intros [? | ?]; done).
        by apply lookup_insert_ne.
Qed.

(** C4: with nothing selected [assignColor] only raises an error notice
    and the state, [appliedColors] included, stays as it was; otherwise
    every selected identifier is mapped to the colour, every other entry
    of [appliedColors] is kept, and the step becomes download. *)
Theorem assignColor_spec s c :
  (selectedMasks s = [] →
     reports_error (op_trace s (AssignColor c)) = true ∧
     state_updates (op_trace s (AssignColor c)) = 0 ∧
     run_op s (AssignColor c) = s) ∧
  (selectedMasks s ≠ [] →
     let s' := run_op s (AssignColor c) in
     (∀ i, i ∈ selectedMasks s → appliedColors s' !! i = Some c) ∧
     (∀ i, i ∉ selectedMasks s → appliedColors s' !! i = appliedColors s !! i) ∧
     currentStep s' = SDownload ∧
     reports_error (op_trace s (AssignColor c)) = false) ∧
  (selectedMasks s = [1; 2]%Z → appliedColors s = ∅ →
     appliedColors (run_op s (AssignColor c)) = {[ 1%Z := c; 2%Z := c ]}).
Proof.
  unfold run_op. cbn [op_trace]. unfold App.handleColorSelect.
  split; [| split].
  - intros ->. cbn. done.
  - intros Hsel. rewrite decide_False by by destruct (selectedMasks s).
    cbn. repeat split.
    + intros i Hi. rewrite lookup_colors_applied. by rewrite decide_True.
    + intros i Hi. rewrite lookup_colors_applied. by rewrite decide_False.
  - intros Hsel Hnone. rewrite Hsel. rewrite decide_False by done.
    cbn. rewrite Hnone.
    apply map_eq. intros i.
    destruct (decide (i = 2%Z)) as [-> | H2]; [by simplify_map_eq |].
    destruct (decide (i = 1%Z)) as [-> | H1]; by simplify_map_eq.
Qed.

Lemma assignColor_spec_witness :
  run_op s_masked (AssignColor "#FF6B6B"%string) = s_masked ∧
  appliedColors s_colored !! 1700000000000%Z = Some "#FF6B6B"%string ∧
  currentStep s_colored = SDownload.
Proof.
  split; [| split].
  - apply (proj1 (assignColor_spec s_masked "#FF6B6B"%string)). reflexivity.
  - apply (proj1 (proj2 (assignColor_spec s_selected "#FF6B6B"%string))).
    + discriminate.
    + vm_compute. apply list_elem_of_here.
  - apply (proj1 (proj2 (assignColor_spec s_selected "#FF6B6B"%string))). discriminate.
Defined.

(** ** handleMaskSelect *)

Lemma elem_of_toggle maskId (l : list Z) i :
  i ∈ App.toggle maskId l ↔ (i = maskId ∧ maskId ∉ l) ∨ (i ≠ maskId ∧ i ∈ l).
Proof.
  unfold App.toggle. case_bool_decide as Hin.
  - rewrite list_elem_of_filter. naive_solver.
  - rewrite elem_of_app, list_elem_of_singleton.
    destruct (decide (i = maskId)) as [-> | Hne]; naive_solver.
Qed.

Lemma toggle_flips maskId (l : list Z) : maskId ∈ App.toggle maskId l ↔ maskId ∉ l.
Proof. rewrite elem_of_toggle. naive_solver. Qed.

Lemma toggle_twice maskId (l : list Z) i :
  i ∈ App.toggle maskId (App.toggle maskId l) ↔ i ∈ l.
Proof.
  rewrite elem_of_toggle, toggle_flips, elem_of_toggle.
  destruct (decide (i = maskId)) as [-> | Hne];
    destruct (decide (maskId ∈ l)); naive_solver.
Qed.

Lemma toggle_NoDup maskId (l : list Z) : NoDup l → NoDup (App.toggle maskId l).
Proof.
  intros Hl. unfold App.toggle. case_bool_decide as Hin.
  - by apply NoDup_filter.
  - apply NoDup_app. split; [done |]. split; [| apply NoDup_singleton].
    intros i Hi ->%list_elem_of_singleton. done.
Qed.

(** C8: toggling the same identifier twice gives back the set of selected
    identifiers the state started with, and touches nothing else. *)
Theorem toggleMaskSelection_involutive s maskId :
  let s' := run_op s (ToggleMaskSelection maskId) in
  let s'' := run_op s' (ToggleMaskSelection maskId) in
  (maskId ∈ selectedMasks s' ↔ maskId ∉ selectedMasks s) ∧
  list_to_set (selectedMasks s'') =@{gset Z} list_to_set (selectedMasks s) ∧
  (uploadedImage s'', imagePreview s'', masks s'', appliedColors s'',
   isProcessing s'', progress s'', error s'', currentStep s'')
  = (uploadedImage s, imagePreview s, masks s, appliedColors s,
     isProcessing s, progress s, error s, currentStep s).
Proof.
  cbn. split; [apply toggle_flips |]. split; [| done].
  apply set_eq. intros i. rewrite !elem_of_list_to_set. apply toggle_twice.
Qed.

Lemma toggleMaskSelection_involutive_witness :
  list_to_set
    (selectedMasks
       (run_op (run_op s_selected (ToggleMaskSelection 1700000000000))
               (ToggleMaskSelection 1700000000000)))
  =@{gset Z} list_to_set (selectedMasks s_selected).
Proof.
  apply (proj1 (proj2 (toggleMaskSelection_involutive s_selected 1700000000000))).
Defined.

(** ** The upload component *)

(** C5: a file whose type is not in the allow-list, or that is larger
    than 10 MB, gets one error notice and nothing else: no update of the
    component or of the application state, no remote call, and the
    controller's handler is not called. *)
Theorem invalid_file_rejected onImageUpload file result :
  file_type file ∉ ["image/jpeg"; "image/jpg"; "image/png"; "image/webp"] ∨
  (10 * 1024 * 1024 < file_size file)%Z →
  let t := ImageUpload.handleFile onImageUpload file result in
  (∃ notice, t = [ShowToast notice] ∧ toast_variant notice = Some "destructive") ∧
  reports_error t = true ∧ state_updates t = 0 ∧ remote_calls t = 0 ∧
  (∀ s, exec t s = s) ∧
  (∀ s preview net, ¬ offered s (SubmitImage file preview net)).
Proof.
  intros Hbad. cbn [offered].
  unfold ImageUpload.handleFile, ImageUpload.validateFile.
  fold ImageUpload.validTypes.
  case_bool_decide as Htype; cbn [negb].
  - assert ((file_size file >? ImageUpload.maxSize)%Z = true) as ->.
    { destruct Hbad as [Hbad | Hbad]; [done |].
      rewrite Z.gtb_ltb. by apply Z.ltb_lt. }
    cbn. repeat split; eauto.
  - cbn. repeat split; eauto.
Qed.

Lemma invalid_file_rejected_witness :
  state_updates
    (ImageUpload.handleFile (λ file preview, App.handleImageUpload file preview upload_ok)
       big_png (Some preview_url)) = 0 ∧
  remote_calls
    (ImageUpload.handleFile (λ file preview, App.handleImageUpload file preview upload_ok)
       (mkFile "notes.pdf" "application/pdf" 1024) (Some preview_url)) = 0.
Proof.
  split.
  - apply (invalid_file_rejected
             (λ file preview, App.handleImageUpload file preview upload_ok)
             big_png (Some preview_url)).
    right. vm_compute. reflexivity.
  - apply (invalid_file_rejected
             (λ file preview, App.handleImageUpload file preview upload_ok)
             (mkFile "notes.pdf" "application/pdf" 1024) (Some preview_url)).
    left. cbn [file_type]. intros H. vm_compute in H.
    repeat (apply elem_of_cons in H as [H | H]; [discriminate H |]).
    by apply elem_of_nil in H.
Defined.

(** ** The palette component *)

Section RecentColors.
Import ColorPalette.

Lemma recentColors_after_snoc history a :
  recentColors_after (history ++ [a]) = act a (recentColors_after history).
Proof. unfold recentColors_after. by rewrite foldl_app. Qed.

Lemma act_length a (l : list string) : length l ≤ 8 → length (act a l) ≤ 8.
Proof.
  intros Hl. destruct a as [color | color]; cbn [act].
  - unfold recent_selected. cbn [length]. rewrite length_take. lia.
  - unfold removeRecentColor.
    pose proof (length_filter (λ c, c ≠ color) l). lia.
Qed.

Lemma recentColors_bounded history : length (recentColors_after history) ≤ 8.
Proof.
  induction history as [| a history IH] using rev_ind; [cbn; lia |].
  rewrite recentColors_after_snoc. by apply act_length.
Qed.

(** *** Times of selection *)

Lemma last_pick_lt history c t : last_pick history c = Some t → t < length history.
Proof.
  revert t. induction history as [| a history IH]; intros t; cbn; [done |].
  destruct (last_pick history c) as [t' |].
  - intros [= <-]. specialize (IH t' eq_refl). lia.
  - case_decide; intros [= <-]. lia.
Qed.

Lemma last_pick_snoc_same history c :
  last_pick (history ++ [Pick c]) c = Some (length history).
Proof.
  induction history as [| a history IH]; cbn.
  - by rewrite decide_True.
  - by rewrite IH.
Qed.

Lemma last_pick_snoc_other history a d :
  a ≠ Pick d → last_pick (history ++ [a]) d = last_pick history d.
Proof.
  intros Ha. induction history as [| b history IH]; cbn.
  - by rewrite decide_False.
  - by rewrite IH.
Qed.

Lemma fresher_snoc_other history a c d :
  a ≠ Pick c → a ≠ Pick d → fresher history c d → fresher (history ++ [a]) c d.
Proof.
  intros Hc Hd (tc & td & ? & ? & ?). exists tc, td.
  by rewrite !last_pick_snoc_other.
Qed.

Lemma fresher_just_picked history c d :
  c ≠ d → is_Some (last_pick history d) → fresher (history ++ [Pick c]) c d.
Proof.
  intros Hne [td Htd]. exists (length history), td.
  rewrite last_pick_snoc_same, last_pick_snoc_other by congruence.
  eauto using last_pick_lt.
Qed.

(** *** The list is ordered by time of selection *)

Lemma StronglySorted_sublist {A} (R : relation A) (l' l : list A) :
  l' `sublist_of` l → StronglySorted R l → StronglySorted R l'.
Proof.
  induction 1 as [| x l1 l2 Hsub IH | x l1 l2 Hsub IH];
    rewrite ?StronglySorted_cons; [done | |].
  - intros [Hall Hs]. split; [| by apply IH].
    rewrite Forall_forall in *. eauto using elem_of_sublist.
  - intros [_ Hs]. by apply IH.
Qed.

Lemma StronglySorted_weaken {A} (R R' : relation A) (l : list A) :
  (∀ c d, c ∈ l → d ∈ l → R c d → R' c d) →
  StronglySorted R l → StronglySorted R' l.
Proof.
  induction l as [| x l IH]; intros HR; rewrite ?StronglySorted_cons;
    [constructor |].
  intros [Hall Hs]. split.
  - rewrite Forall_forall in *. intros d Hd. apply HR; [left | by right | auto].
  - apply IH; [| done]. intros c d Hc Hd. apply HR; by right.
Qed.

Lemma by_recency_act history a l :
  by_recency history l → by_recency (history ++ [a]) (act a l).
Proof.
  intros [Hsome Hsorted]. destruct a as [color | color]; cbn [act].
  - unfold recent_selected.
    set (rest := take 7 (filter (λ c, c ≠ color) l)).
    assert (∀ d, d ∈ rest → d ∈ l ∧ d ≠ color) as Hrest.
    { intros d Hd.
      assert (d ∈ filter (λ c, c ≠ color) l) as Hd'
        by (eapply elem_of_sublist; [exact Hd | apply sublist_take]).
      apply list_elem_of_filter in Hd'. by destruct Hd'. }
    assert (rest `sublist_of` l) as Hsub.
    { etrans; [apply sublist_take | apply sublist_filter]. }
    split.
    + intros d [-> | Hd]%elem_of_cons.
      * rewrite last_pick_snoc_same. eauto.
      * destruct (Hrest d Hd) as [Hl Hne].
        rewrite last_pick_snoc_other by congruence. auto.
    + apply StronglySorted_cons. split.
      * apply Forall_forall. intros d Hd. destruct (Hrest d Hd) as [Hl Hne].
        apply fresher_just_picked; [done | auto].
      * apply (StronglySorted_weaken (fresher history)).
        -- intros c d Hc Hd. destruct (Hrest c Hc), (Hrest d Hd).
           apply fresher_snoc_other; congruence.
        -- by apply (StronglySorted_sublist _ _ l).
  - unfold removeRecentColor. split.
    + intros d [_ Hd]%list_elem_of_filter.
      rewrite last_pick_snoc_other by done. auto.
    + apply (StronglySorted_weaken (fresher history)).
      * intros c d _ _. by apply fresher_snoc_other.
      * apply (StronglySorted_sublist _ _ l); [apply sublist_filter | done].
Qed.

Lemma recentColors_by_recency history :
  by_recency history (recentColors_after history).
Proof.
  induction history as [| a history IH] using rev_ind.
  - split; [by intros d ?%elem_of_nil | constructor].
  - rewrite recentColors_after_snoc. by apply by_recency_act.
Qed.

Lemma filter_all {A} (P : A → Prop) `{∀ x, Decision (P x)} (l : list A) :
  (∀ x, x ∈ l → P x) → filter P l = l.
Proof.
  induction l as [| x l IH]; intros Hall; [done |].
  rewrite filter_cons_True by (apply Hall; left).
  f_equal. apply IH. intros y Hy. apply Hall. by right.
Qed.

(** A full list and a colour that is not in it: the last entry goes. *)
Lemma recent_selected_full color (l : list string) :
  length l = 8 → color ∉ l →
  ∃ kept oldest, l = kept ++ [oldest] ∧ recent_selected color l = color :: kept.
Proof.
  intros Hlen Hnew. unfold recent_selected.
  rewrite filter_all by (intros c Hc ->; done).
  destruct (drop 7 l) as [| oldest [| ? ?]] eqn:Hdrop;
    pose proof (length_drop l 7) as Hd; rewrite Hdrop, Hlen in Hd;
    cbn in Hd; try lia.
  exists (take 7 l), oldest. split; [| done].
  by rewrite <- Hdrop, take_drop.
Qed.
End RecentColors.

(** ** The event loop *)

Lemma until_await_split t : ((until_await t).1 ++ (until_await t).2)%list = t.
Proof.
  induction t as [| e t IH]; [done |]. cbn.
  destruct (is_await e); [done |].
  destruct (until_await t) as [now later]. cbn in *. by rewrite IH.
Qed.

Lemma until_await_shorter e t : length (until_await (e :: t)).2 < S (length t).
Proof.
  pose proof (until_await_split (e :: t)) as H. apply (f_equal length) in H.
  rewrite length_app in H. cbn [length] in H.
  assert (0 < length (until_await (e :: t)).1); [| lia].
  cbn. destruct (is_await e); [cbn; lia |].
  destruct (until_await t). cbn. lia.
Qed.

Lemma exec_until_await t s : exec (until_await t).2 (exec (until_await t).1 s) = exec t s.
Proof. by rewrite <- exec_app, until_await_split. Qed.

(** A waiting handler can be resumed until it has nothing left to run. *)
Lemma resume_to_completion k s ts :
  rtc loop_step (mkConfig s (k :: ts)) (mkConfig (exec k s) ([] :: ts)).
Proof.
  remember (length k) as n eqn:Hn. revert k s Hn.
  induction n as [n IH] using lt_wf_ind. intros k s ->.
  destruct k as [| e k]; [apply rtc_refl |].
  eapply rtc_l; [apply (step_resume s [] (e :: k) ts) |]. cbn [app].
  rewrite <- (exec_until_await (e :: k) s).
  eapply IH; [| reflexivity]. apply until_await_shorter.
Qed.

Lemma reachable_initial : reachable App.initial.
Proof. exists []. apply rtc_refl. Qed.

(** An operation that is offered can be started and run to completion. *)
Lemma reachable_run_op s o : reachable s → offered s o → reachable (run_op s o).
Proof.
  intros [ts Hs] Ho. exists ([] :: ts). etrans; [exact Hs |].
  eapply rtc_l; [by apply step_start |].
  unfold run_op. rewrite <- (exec_until_await (op_trace s o) s).
  apply resume_to_completion.
Qed.


(** *** Invariants of the loop *)

Lemma exec_stable I t s : Forall (stable I) t → I s → I (exec t s).
Proof.
  revert s. induction t as [| e t IH]; intros s Ht Hs; [done |].
  apply Forall_cons in Ht as [He Ht]. cbn. apply IH; [done | by apply He].
Qed.

Lemma until_await_stable I t :
  Forall (stable I) t →
  Forall (stable I) (until_await t).1 ∧ Forall (stable I) (until_await t).2.
Proof. rewrite <- (until_await_split t) at 1. apply Forall_app. Qed.

Lemma loop_step_inv I c c' :
  (∀ s o, offered s o → I s →
          I (exec (until_await (op_trace s o)).1 s) ∧
          Forall (stable I) (until_await (op_trace s o)).2) →
  loop_step c c' → config_inv I c → config_inv I c'.
Proof.
  intros Hstart Hstep [Hs Hts]. destruct Hstep as [s ts o Ho | s ts1 k ts2]; cbn in *.
  - destruct (Hstart s o Ho Hs) as [Hs' Hk]. split; [done |]. by apply Forall_cons.
  - apply Forall_app in Hts as [Hts1 [Hk Hts2]%Forall_cons].
    destruct (until_await_stable I k Hk) as [Hnow Hlater]. split.
    + by apply exec_stable.
    + apply Forall_app. split; [done |]. by apply Forall_cons.
Qed.

(** A property that holds initially, that the synchronous part of every
    offered handler keeps, and that the rest of the handler keeps from
    any state, holds in every reachable state. *)
Lemma reachable_invariant (I : AppState → Prop) :
  I App.initial →
  (∀ s o, offered s o → I s →
          I (exec (until_await (op_trace s o)).1 s) ∧
          Forall (stable I) (until_await (op_trace s o)).2) →
  ∀ s, reachable s → I s.
Proof.
  intros Hinit Hstart s [ts Hreach].
  assert (config_inv I (mkConfig s ts)) as [H _]; [| exact H].
  eapply (rtc_ind_r (λ c, config_inv I c)); [| | exact Hreach].
  - split; [exact Hinit | constructor].
  - intros c c' _ Hstep Hc. by eapply loop_step_inv.
Qed.

Lemma stable_whole_handler I s o :
  Forall (stable I) (op_trace s o) → I s →
  I (exec (until_await (op_trace s o)).1 s) ∧
  Forall (stable I) (until_await (op_trace s o)).2.
Proof.
  intros [Hnow Hlater]%until_await_stable Hs. split; [by apply exec_stable | done].
Qed.

(** *** A run with an upload between two clicks *)

(** An offered operation, started and resumed until it has ended. *)
Lemma run_op_steps s o ts :
  offered s o →
  rtc loop_step (mkConfig s ts) (mkConfig (run_op s o) ([] :: ts)).
Proof.
  intros Ho. eapply rtc_l; [by apply step_start |].
  unfold run_op. rewrite <- (exec_until_await (op_trace s o) s).
  apply resume_to_completion.
Qed.




(** ** Selected identifiers are identifiers of masks *)

Lemma stable_no_update I e : is_setState e = false → stable I e.
Proof. intros He s Hs. by destruct e. Qed.

Lemma stable_progress_loop I inc ms :
  (∀ i, stable I (SetState (App.set_progress i))) →
  Forall (stable I) (App.progress_loop inc ms).
Proof.
  intros Hset. unfold App.progress_loop. apply Forall_flat_map, Forall_forall.
  intros i _. repeat constructor; [apply Hset | by apply stable_no_update].
Qed.

(** An updater that leaves the selection alone and only adds masks. *)
Lemma selection_valid_updater f :
  (∀ s, selectedMasks (f s) = selectedMasks s) →
  (∀ s, ∃ more, masks (f s) = (masks s ++ more)%list) →
  stable selection_valid (SetState f).
Proof.
  intros Hsel Hmasks s Hs maskId. cbn. rewrite Hsel.
  destruct (Hmasks s) as [more ->]. intros Hin. specialize (Hs maskId Hin).
  rewrite fmap_app. apply elem_of_app. by left.
Qed.

Ltac keeps_selection :=
  repeat first
    [ by apply Forall_nil
    | apply Forall_cons; split
    | apply Forall_app; split
    | apply stable_progress_loop; intros ?
    | by apply stable_no_update
    | apply selection_valid_updater; intros ?;
      [ reflexivity
      | first [ exists []; symmetry; apply app_nil_r | eexists; reflexivity ] ] ].

Lemma handleImageUpload_selection file preview net :
  Forall (stable selection_valid) (App.handleImageUpload file preview net).
Proof.
  unfold App.handleImageUpload, App.upload_settled, App.upload_catch.
  destruct (Api.uploadImage net) as [r | e]; [destruct (upload_success r) |];
    keeps_selection.
Qed.

Lemma handleCanvasClick_selection s x y now net :
  Forall (stable selection_valid) (App.handleCanvasClick s x y now net).
Proof.
  unfold App.handleCanvasClick, App.mask_issued, App.mask_settled, App.mask_catch.
  destruct (uploadedImage s); [destruct (isProcessing s) |]; [constructor | | constructor].
  destruct (Api.generateMasks net) as [r | e]; [destruct (gen_success r) |];
    keeps_selection.
Qed.

Lemma handleColorSelect_selection s c :
  Forall (stable selection_valid) (App.handleColorSelect s c).
Proof. unfold App.handleColorSelect. case_decide; keeps_selection. Qed.

Lemma handleDownload_selection s :
  Forall (stable selection_valid) (App.handleDownload s).
Proof. unfold App.handleDownload. case_decide; keeps_selection. Qed.

Lemma toggle_selection_valid s maskId :
  selection_valid s →
  maskId ∈ mask_id <$> masks s ∨ maskId ∈ selectedMasks s →
  selection_valid (App.mask_toggled maskId s).
Proof.
  intros Hs Hid i. cbn. rewrite elem_of_toggle.
  intros [[-> Hout] | [_ Hin]]; [| by apply Hs].
  destruct Hid as [Hid | Hid]; [done | by apply Hs].
Qed.

(** C7 (as the code has it): every state the application can reach has
    its selected identifiers among the identifiers of its masks, because
    a mask can only be toggled from its own overlay; the toggle itself
    keeps the property for the identifier of an existing mask and for an
    identifier that is currently selected, and does not check others. *)
Theorem selection_valid_reachable :
  (∀ s, reachable s → selection_valid s) ∧
  (∀ s maskId,
     selection_valid s →
     maskId ∈ mask_id <$> masks s ∨ maskId ∈ selectedMasks s →
     selection_valid (run_op s (ToggleMaskSelection maskId))).
Proof.
  split; [| intros s maskId; apply toggle_selection_valid].
  apply reachable_invariant.
  - by intros maskId ?%elem_of_nil.
  - intros s o Ho Hs. destruct o as [file preview net | x y now net | c | maskId |].
    + apply stable_whole_handler; [apply handleImageUpload_selection | done].
    + apply stable_whole_handler; [apply handleCanvasClick_selection | done].
    + apply stable_whole_handler; [apply handleColorSelect_selection | done].
    + cbn. split; [| constructor]. apply toggle_selection_valid; [done | by left].
    + apply stable_whole_handler; [apply handleDownload_selection | done].
Qed.

Lemma selection_valid_reachable_witness :
  selection_valid s_selected ∧
  selection_valid (run_op s_masked (ToggleMaskSelection 1700000000000)).
Proof.
  destruct selection_valid_reachable as [Hreach Htoggle]. split.
  - apply Hreach.
    repeat (apply reachable_run_op; [| first [exact I | reflexivity | idtac]]).
    + apply reachable_initial.
    + vm_compute. apply list_elem_of_here.
  - apply Htoggle.
    + apply Hreach.
      repeat (apply reachable_run_op; [| first [exact I | reflexivity]]).
      apply reachable_initial.
    + left. vm_compute. apply list_elem_of_here.
Defined.

(** C7, as stated, fails: toggling an identifier that no mask carries
    selects it. *)
Lemma toggle_unknown_identifier :
  reachable App.initial ∧ selection_valid App.initial ∧
  (7%Z ∉ mask_id <$> masks App.initial) ∧
  selectedMasks (run_op App.initial (ToggleMaskSelection 7)) = [7%Z] ∧
  masks (run_op App.initial (ToggleMaskSelection 7)) = [] ∧
  ¬ selection_valid (run_op App.initial (ToggleMaskSelection 7)).
Proof.
  split; [apply reachable_initial |].
  split; [by intros maskId ?%elem_of_nil |].
  split; [by intros ?%elem_of_nil |].
  split; [reflexivity |]. split; [reflexivity |].
  intros H. specialize (H 7%Z (list_elem_of_here _ _)). by apply elem_of_nil in H.
Qed.

(** ** The step of the workflow *)


Lemma upload_settled_cases net :
  App.upload_settled net
  = [ ShowToast {| toast_title := "Image uploaded successfully";
                   toast_description := "Your image is ready for processing.";
                   toast_variant := None |};
      SetState App.upload_finished ] ∨
  (∃ e, App.upload_settled net = App.upload_catch e).
Proof.
  unfold App.upload_settled.
  destruct (Api.uploadImage net) as [r | e]; [destruct (upload_success r) |]; eauto.
Qed.

Lemma handleImageUpload_exec s file preview net :
  exec (App.handleImageUpload file preview net) s
  = exec (App.upload_settled net)
         (App.set_progress 100 (App.upload_started file preview s)).
Proof.
  change (App.handleImageUpload file preview net)
    with ((SetState (App.upload_started file preview)
             :: App.progress_loop 10 100 ++ [RemoteUpload file])
          ++ App.upload_settled net)%list.
  by rewrite exec_app.
Qed.

Lemma handleImageUpload_reports file preview net :
  reports_error (App.handleImageUpload file preview net)
  = reports_error (App.upload_settled net).
Proof. reflexivity. Qed.



Lemma mask_settled_rejected now net e :
  Api.generateMasks net = Rejected e → App.mask_settled now net = App.mask_catch e.
Proof. unfold App.mask_settled. by intros ->. Qed.

Lemma mask_settled_flagged now net r :
  Api.generateMasks net = Resolved r → gen_success r = false →
  App.mask_settled now net
  = App.mask_catch (ErrorObj (or_default (gen_message r) "Mask generation failed")).
Proof. unfold App.mask_settled. by intros -> ->. Qed.


Lemma upload_settled_rejected net e :
  Api.uploadImage net = Rejected e → App.upload_settled net = App.upload_catch e.
Proof. unfold App.upload_settled. by intros ->. Qed.

Lemma upload_settled_flagged net r :
  Api.uploadImage net = Resolved r → upload_success r = false →
  App.upload_settled net
  = App.upload_catch (ErrorObj (or_default (upload_message r) "Upload failed")).
Proof. unfold App.upload_settled. by intros -> ->. Qed.




(** ** Failures *)





(** ** The API client *)

Section ApiClient.
Variable Blob : Type.

Lemma api_network_error e :
  Api.uploadImage (Api.FetchRejected e) = Rejected e ∧
  Api.generateMasks (Api.FetchRejected e) = Rejected e ∧
  Api.applyColor (Api.FetchRejected e) = Rejected e ∧
  Api.downloadResult (Api.FetchRejected (B := Blob) e) = Rejected e.
Proof. done. Qed.

Lemma api_bad_status status b1 b2 b3 (b4 : Promise Blob) :
  Api.ok status = false →
  Api.uploadImage (Api.FetchResponse status b1)
  = Rejected (ErrorObj ("Upload failed: " +:+ pretty status)) ∧
  Api.generateMasks (Api.FetchResponse status b2)
  = Rejected (ErrorObj ("Mask generation failed: " +:+ pretty status)) ∧
  Api.applyColor (Api.FetchResponse status b3)
  = Rejected (ErrorObj ("HTTP error! status: " +:+ pretty status)) ∧
  Api.downloadResult (Api.FetchResponse status b4)
  = Rejected (ErrorObj ("Download failed: " +:+ pretty status)).
Proof.
  intros Hok.
  unfold Api.uploadImage, Api.generateMasks, Api.applyColor, Api.makeRequest,
    Api.downloadResult.
  by rewrite Hok.
Qed.

Lemma api_good_status status b1 b2 b3 (b4 : Promise Blob) :
  Api.ok status = true →
  Api.uploadImage (Api.FetchResponse status b1) = b1 ∧
  Api.generateMasks (Api.FetchResponse status b2) = b2 ∧
  Api.applyColor (Api.FetchResponse status b3) = b3 ∧
  Api.downloadResult (Api.FetchResponse status b4) = b4.
Proof.
  intros Hok.
  unfold Api.uploadImage, Api.generateMasks, Api.applyColor, Api.makeRequest,
    Api.downloadResult.
  rewrite Hok. cbn. by destruct b3.
Qed.
End ApiClient.

(** C6 (as the code has it): every operation of the API client rejects
    on a network error, with the error of [fetch], and on a status
    outside 200-299, with an error that names the status; a response with
    a status in 200-299 is handed to the caller as it is, whatever its
    [success] flag.  The flag is read by the controller: for a body with
    [success: false] it runs the same [catch] as for a rejected call,
    with an error made of the message of the response (or of the default
    message); in both cases the failure notice is raised, the message of
    the error is recorded and no mask is added. *)
Theorem api_client_failures :
  (∀ (Blob : Type) e,
     Api.uploadImage (Api.FetchRejected e) = Rejected e ∧
     Api.generateMasks (Api.FetchRejected e) = Rejected e ∧
     Api.applyColor (Api.FetchRejected e) = Rejected e ∧
     Api.downloadResult (Api.FetchRejected (B := Blob) e) = Rejected e) ∧
  (∀ (Blob : Type) status b1 b2 b3 (b4 : Promise Blob),
     Api.ok status = false →
     Api.uploadImage (Api.FetchResponse status b1)
     = Rejected (ErrorObj ("Upload failed: " +:+ pretty status)) ∧
     Api.generateMasks (Api.FetchResponse status b2)
     = Rejected (ErrorObj ("Mask generation failed: " +:+ pretty status)) ∧
     Api.applyColor (Api.FetchResponse status b3)
     = Rejected (ErrorObj ("HTTP error! status: " +:+ pretty status)) ∧
     Api.downloadResult (Api.FetchResponse status b4)
     = Rejected (ErrorObj ("Download failed: " +:+ pretty status))) ∧
  (∀ (Blob : Type) status b1 b2 b3 (b4 : Promise Blob),
     Api.ok status = true →
     Api.uploadImage (Api.FetchResponse status b1) = b1 ∧
     Api.generateMasks (Api.FetchResponse status b2) = b2 ∧
     Api.applyColor (Api.FetchResponse status b3) = b3 ∧
     Api.downloadResult (Api.FetchResponse status b4) = b4) ∧
  (∀ s file preview status r,
     Api.ok status = true → upload_success r = false →
     let o := SubmitImage file preview (Api.FetchResponse status (Resolved r)) in
     reports_error (op_trace s o) = true ∧
     error (run_op s o) = Some (or_default (upload_message r) "Upload failed")) ∧
  (∀ s image x y now status r,
     uploadedImage s = Some image → isProcessing s = false →
     Api.ok status = true → gen_success r = false →
     let o := RequestMaskAtPoint x y now (Api.FetchResponse status (Resolved r)) in
     reports_error (op_trace s o) = true ∧
     error (run_op s o) = Some (or_default (gen_message r) "Mask generation failed") ∧
     masks (run_op s o) = masks s) ∧
  (∀ s file preview net e,
     Api.uploadImage net = Rejected e →
     let o := SubmitImage file preview net in
     App.upload_settled net = App.upload_catch e ∧
     reports_error (op_trace s o) = true ∧
     error (run_op s o) = Some (App.message_of e "Upload failed") ∧
     masks (run_op s o) = masks s) ∧
  (∀ net r,
     Api.uploadImage net = Resolved r → upload_success r = false →
     App.upload_settled net
     = App.upload_catch (ErrorObj (or_default (upload_message r) "Upload failed"))) ∧
  (∀ s image x y now net e,
     uploadedImage s = Some image → isProcessing s = false →
     Api.generateMasks net = Rejected e →
     let o := RequestMaskAtPoint x y now net in
     App.mask_settled now net = App.mask_catch e ∧
     reports_error (op_trace s o) = true ∧
     error (run_op s o) = Some (App.message_of e "Mask generation failed") ∧
     masks (run_op s o) = masks s) ∧
  (∀ now net r,
     Api.generateMasks net = Resolved r → gen_success r = false →
     App.mask_settled now net
     = App.mask_catch
         (ErrorObj (or_default (gen_message r) "Mask generation failed"))).
Proof.
  split; [apply api_network_error |]. split; [apply api_bad_status |].
  split; [apply api_good_status |].
  split; [| split; [| split; [| split; [| split]]]].
  - intros s file preview status r Hok Hflag o. subst o. unfold run_op.
    cbn [op_trace]. rewrite handleImageUpload_exec, handleImageUpload_reports.
    unfold App.upload_settled, Api.uploadImage. rewrite Hok. cbn [negb].
    rewrite Hflag. done.
  - intros s image x y now status r Himg Hidle Hok Hflag o. subst o. unfold run_op.
    cbn [op_trace]. rewrite (handleCanvasClick_accepted _ _ _ _ _ _ Himg Hidle).
    rewrite reports_error_app, exec_app, mask_issued_exec.
    unfold App.mask_settled, Api.generateMasks. rewrite Hok. cbn [negb].
    rewrite Hflag. done.
  - intros s file preview net e He o. subst o. unfold run_op. cbn [op_trace].
    rewrite handleImageUpload_exec, handleImageUpload_reports.
    by rewrite (upload_settled_rejected _ _ He).
  - intros net r Hr Hflag. by apply upload_settled_flagged.
  - intros s image x y now net e Himg Hidle He o. subst o. unfold run_op.
    cbn [op_trace]. rewrite (handleCanvasClick_accepted _ _ _ _ _ _ Himg Hidle).
    rewrite reports_error_app, exec_app, mask_issued_exec.
    by rewrite (mask_settled_rejected _ _ _ He).
  - intros now net r Hr Hflag. by apply mask_settled_flagged.
Qed.

Lemma api_client_failures_witness :
  Api.uploadImage (Api.FetchResponse 503 (Resolved (mkUploadResponse true None None)))
  = Rejected (ErrorObj "Upload failed: 503") ∧
  Api.applyColor color_flagged = Resolved (mkApplyColorResponse false None (Some "unknown mask"%string)) ∧
  error (run_op App.initial (SubmitImage photo preview_url upload_flagged))
  = Some "disk full"%string ∧
  masks (run_op s_uploaded (RequestMaskAtPoint 10 20 1700000000001 masks_flagged)) = [] ∧
  error (run_op App.initial (SubmitImage photo preview_url offline))
  = Some "Failed to fetch"%string ∧
  error (run_op s_uploaded (RequestMaskAtPoint 10 20 1700000000001 offline))
  = Some "Failed to fetch"%string ∧
  App.mask_settled 1700000000001 masks_flagged
  = App.mask_catch (ErrorObj "no object at this point").
Proof.
  destruct api_client_failures
    as (_ & Hbad & Hgood & Hupload & Hmask & Hupload_rej & _ & Hmask_rej & Hmask_flag).
  split; [| split; [| split; [| split; [| split; [| split]]]]].
  - apply (Hbad unit 503%Z (Resolved (mkUploadResponse true None None))
             (Rejected NotAnError) (Rejected NotAnError) (Rejected NotAnError)).
    reflexivity.
  - apply (Hgood unit 200%Z (Rejected NotAnError) (Rejected NotAnError)
             (Resolved (mkApplyColorResponse false None (Some "unknown mask"%string)))
             (Rejected NotAnError)).
    reflexivity.
  - apply (Hupload App.initial photo preview_url 200%Z
             (mkUploadResponse false None (Some "disk full"%string)));
      reflexivity.
  - apply (Hmask s_uploaded photo 10%Z 20%Z 1700000000001%Z 200%Z
             (mkGenerateMasksResponse false [] (Some "no object at this point"%string)));
      reflexivity.
  - apply (Hupload_rej App.initial photo preview_url offline
             (ErrorObj "Failed to fetch")).
    reflexivity.
  - apply (Hmask_rej s_uploaded photo 10%Z 20%Z 1700000000001%Z offline
             (ErrorObj "Failed to fetch")); reflexivity.
  - apply (Hmask_flag 1700000000001%Z masks_flagged
             (mkGenerateMasksResponse false []
                (Some "no object at this point"%string)));
      reflexivity.
Defined.

(** C6, as stated, fails: with a status in 200-299 the client returns a
    body whose [success] flag is false as the value of the call. *)
Lemma api_returns_flagged_body :
  Api.uploadImage upload_flagged
  = Resolved {| upload_success := false; upload_filename := None;
                upload_message := Some "disk full"%string |} ∧
  Api.generateMasks masks_flagged
  = Resolved {| gen_success := false; gen_masks := [];
                gen_message := Some "no object at this point"%string |} ∧
  Api.applyColor color_flagged
  = Resolved {| apply_success := false; apply_colored_image_url := None;
                apply_message := Some "unknown mask"%string |}.
Proof. repeat split. Qed.

(** * Further properties of the code *)

(** ** Invariants of the event loop, by updater *)

Lemma for_le_bounds fuel i bound inc x :
  (0 ≤ inc)%Z → x ∈ for_le fuel i bound inc → (i ≤ x ≤ bound)%Z.
Proof.
  intros Hinc. revert i. induction fuel as [| fuel IH]; intros i; cbn.
  - by intros ?%elem_of_nil.
  - destruct (Z.leb_spec i bound) as [Hle | Hgt]; [| by intros ?%elem_of_nil].
    intros [-> | Hx]%elem_of_cons; [lia |]. apply IH in Hx. lia.
Qed.

Lemma until_await_no_await t :
  Forall (λ e, is_await e = false) t → until_await t = (t, []).
Proof.
  induction 1 as [| e t He _ IH]; [done |]. cbn. by rewrite He, IH.
Qed.

Section Updaters.
Variable I : AppState → Prop.
Hypothesis Hupload : ∀ file preview, stable I (SetState (App.upload_started file preview)).
Hypothesis Hprogress : ∀ i, (0 ≤ i ≤ 100)%Z → stable I (SetState (App.set_progress i)).
Hypothesis Hfinished : stable I (SetState App.upload_finished).
Hypothesis Hfailed : ∀ msg, stable I (SetState (App.set_failed msg)).
Hypothesis Hmask : stable I (SetState App.mask_started).
Hypothesis Hadded :
  ∀ now coordinates, stable I (SetState (App.mask_added (mkMask now coordinates None))).

Lemma progress_loop_stable inc ms :
  (0 ≤ inc)%Z → Forall (stable I) (App.progress_loop inc ms).
Proof.
  intros Hinc. unfold App.progress_loop. apply Forall_flat_map, Forall_forall.
  intros i Hi. apply for_le_bounds in Hi; [| done].
  repeat constructor; [by apply Hprogress | by apply stable_no_update].
Qed.

Ltac stable_effects :=
  repeat first
    [ by apply Forall_nil
    | apply Forall_cons; split
    | apply Forall_app; split
    | apply progress_loop_stable; lia
    | by apply stable_no_update
    | apply Hprogress; lia
    | apply Hupload | apply Hfinished | apply Hfailed | apply Hmask | apply Hadded ].

Lemma handleImageUpload_stable file preview net :
  Forall (stable I) (App.handleImageUpload file preview net).
Proof.
  unfold App.handleImageUpload, App.upload_settled, App.upload_catch.
  destruct (Api.uploadImage net) as [r | e]; [destruct (upload_success r) |];
    stable_effects.
Qed.

Lemma handleCanvasClick_stable s x y now net :
  Forall (stable I) (App.handleCanvasClick s x y now net).
Proof.
  unfold App.handleCanvasClick, App.mask_issued, App.mask_settled, App.mask_catch.
  destruct (uploadedImage s); [destruct (isProcessing s) |]; [constructor | | constructor].
  destruct (Api.generateMasks net) as [r | e]; [destruct (gen_success r) |];
    stable_effects.
Qed.

Lemma handleDownload_stable s : Forall (stable I) (App.handleDownload s).
Proof. unfold App.handleDownload. case_decide; stable_effects. Qed.

(** With updaters of [handleColorSelect] and [handleMaskSelect] that keep
    the property from any state, every handler keeps it. *)
Lemma op_trace_stable s o :
  (∀ selected c, stable I (SetState (App.colors_applied selected c))) →
  (∀ maskId, stable I (SetState (App.mask_toggled maskId))) →
  Forall (stable I) (op_trace s o).
Proof.
  intros Hcolors Htoggle.
  destruct o as [file preview net | x y now net | c | maskId |]; cbn [op_trace].
  - apply handleImageUpload_stable.
  - apply handleCanvasClick_stable.
  - unfold App.handleColorSelect. case_decide; stable_effects. apply Hcolors.
  - unfold App.handleMaskSelect. stable_effects. apply Htoggle.
  - apply handleDownload_stable.
Qed.

(** The property holds in every reachable state as soon as the two
    synchronous handlers keep it from the state they are started in. *)
Lemma reachable_by_updaters :
  I App.initial →
  (∀ s c, I s → I (exec (App.handleColorSelect s c) s)) →
  (∀ s maskId, I s → maskId ∈ mask_id <$> masks s → I (App.mask_toggled maskId s)) →
  ∀ s, reachable s → I s.
Proof.
  intros Hinit Hcolors Htoggle. apply reachable_invariant; [done |].
  intros s o Ho Hs. destruct o as [file preview net | x y now net | c | maskId |].
  - apply stable_whole_handler; [apply handleImageUpload_stable | done].
  - apply stable_whole_handler; [apply handleCanvasClick_stable | done].
  - cbn [op_trace]. rewrite until_await_no_await.
    + split; [by apply Hcolors | constructor].
    + unfold App.handleColorSelect. case_decide; by repeat constructor.
  - cbn. split; [by apply Htoggle | constructor].
  - apply stable_whole_handler; [apply handleDownload_stable | done].
Qed.
End Updaters.

(** Handlers that wait in a configuration reached from the start are
    made of effects of the handlers. *)
Lemma reachable_pending (Q : Effect → Prop) c :
  (∀ s o, Forall Q (op_trace s o)) →
  rtc loop_step (mkConfig App.initial []) c → Forall (Forall Q) (pending c).
Proof.
  intros HQ Hreach.
  eapply (rtc_ind_r (λ c, Forall (Forall Q) (pending c))); [| | exact Hreach].
  - constructor.
  - intros c1 c2 _ Hstep Hc1. destruct Hstep as [s ts o Ho | s ts1 k ts2]; cbn in *.
    + apply Forall_cons. split; [| done].
      pose proof (HQ s o) as Ht. rewrite <- (until_await_split (op_trace s o)) in Ht.
      by apply Forall_app in Ht as [_ ?].
    + apply Forall_app in Hc1 as [H1 [Hk H2]%Forall_cons].
      apply Forall_app. split; [done |]. apply Forall_cons. split; [| done].
      rewrite <- (until_await_split k) in Hk. by apply Forall_app in Hk as [_ ?].
Qed.

Lemma scenario_reachable :
  reachable s_uploaded ∧ reachable s_masked ∧ reachable s_selected ∧
  reachable s_colored.
Proof.
  assert (reachable s_uploaded) as H1
    by (apply reachable_run_op; [apply reachable_initial | reflexivity]).
  assert (reachable s_masked) as H2 by (by apply reachable_run_op).
  assert (reachable s_selected) as H3.
  { apply reachable_run_op; [done |]. vm_compute. apply list_elem_of_here. }
  assert (reachable s_colored) as H4 by (by apply reachable_run_op).
  done.
Qed.

(** X1: in every state the application can reach, under every
    interleaving of its handlers, the progress is between 0 and 100. *)
Theorem progress_in_range s : reachable s → (0 ≤ progress s ≤ 100)%Z.
Proof.
  revert s. apply reachable_by_updaters; try (intros; intros s Hs; cbn; lia).
  - cbn. lia.
  - intros s c Hs. unfold App.handleColorSelect. by case_decide.
  - done.
Qed.

Lemma progress_in_range_witness : (0 ≤ progress s_colored ≤ 100)%Z.
Proof. apply progress_in_range. apply scenario_reachable. Defined.

(** X2: in every reachable state every identifier that has a colour in
    [appliedColors] is the identifier of a mask in [masks]. *)
Theorem appliedColors_on_masks s maskId c :
  reachable s → appliedColors s !! maskId = Some c → maskId ∈ mask_id <$> masks s.
Proof.
  intros Hs Hc.
  enough (selection_valid s ∧
          ∀ k, is_Some (appliedColors s !! k) → k ∈ mask_id <$> masks s) as [_ H]
    by (apply H; eauto).
  clear maskId c Hc. revert s Hs. apply reachable_by_updaters.
  - intros file preview s [Hsel Hcol]. split; [by apply Hsel | by apply Hcol].
  - intros i _ s [Hsel Hcol]. split; [by apply Hsel | by apply Hcol].
  - intros s [Hsel Hcol]. split; [by apply Hsel | by apply Hcol].
  - intros msg s [Hsel Hcol]. split; [by apply Hsel | by apply Hcol].
  - intros s [Hsel Hcol]. split; [by apply Hsel | by apply Hcol].
  - intros now coordinates s [Hsel Hcol]. cbn. split.
    + intros k Hk. cbn. rewrite fmap_app. apply elem_of_app. left. by apply Hsel.
    + intros k Hk. rewrite fmap_app. apply elem_of_app. left. by apply Hcol.
  - split; [by intros k ?%elem_of_nil |]. intros k [? Hk]. cbn in Hk. by simplify_map_eq.
  - intros s c [Hsel Hcol]. unfold App.handleColorSelect. case_decide; [done |].
    cbn. split; [done |]. intros k. rewrite lookup_colors_applied.
    case_decide; [intros _; by apply Hsel | apply Hcol].
  - intros s maskId [Hsel Hcol] Hid. split; [| done].
    apply toggle_selection_valid; [done | by left].
Qed.

Lemma appliedColors_on_masks_witness :
  1700000000000%Z ∈ mask_id <$> masks s_colored.
Proof.
  apply (appliedColors_on_masks s_colored 1700000000000 "#FF6B6B"%string).
  - apply scenario_reachable.
  - reflexivity.
Defined.

(** X3: masks are created without a colour and no handler gives them
    one, so in every reachable state the overlay of every mask is
    transparent with opacity 0, whatever colours have been applied. *)
Theorem overlays_stay_transparent s mask :
  reachable s → mask ∈ masks s →
  mask_color mask = None ∧
  AppView.overlay_backgroundColor mask = "transparent"%string ∧
  AppView.overlay_opacity mask = QArith_base.Qmake 0 1.
Proof.
  intros Hs Hm.
  enough (mask_color mask = None) as Hnone.
  { unfold AppView.overlay_backgroundColor, AppView.overlay_opacity.
    by rewrite Hnone. }
  revert mask Hm. change (∀ mask, mask ∈ masks s → mask_color mask = None)
    with ((λ s, ∀ mask, mask ∈ masks s → mask_color mask = None) s).
  revert s Hs. apply reachable_by_updaters; try (intros; intros s Hs; exact Hs).
  - intros now coordinates s Hs mask. cbn.
    intros [Hm | ->%list_elem_of_singleton]%elem_of_app; [by apply Hs | done].
  - by intros mask ?%elem_of_nil.
  - intros s c Hs. unfold App.handleColorSelect. by case_decide.
  - done.
Qed.

Lemma overlays_stay_transparent_witness :
  appliedColors s_colored !! 1700000000000%Z = Some "#FF6B6B"%string ∧
  AppView.overlay_opacity
    {| mask_id := 1700000000000; mask_coordinates := [[1; 2]; [3; 4]]%Z;
       mask_color := None |} = QArith_base.Qmake 0 1.
Proof.
  split; [reflexivity |].
  apply (overlays_stay_transparent s_colored).
  - apply scenario_reachable.
  - vm_compute. apply list_elem_of_here.
Defined.

(** ** What is never undone *)

Lemma exec_quiet t s : Forall (λ e, is_setState e = false) t → exec t s = s.
Proof.
  revert s. induction t as [| e t IH]; intros s Ht; [done |].
  apply Forall_cons in Ht as [He Ht]. cbn. rewrite <- (IH s Ht) at 2.
  by destruct e.
Qed.

(** X4: along every run of the application the list of masks only grows
    at its end (no mask is removed, replaced or reordered, not even by a
    new upload), and an image, once submitted, is never taken away. *)
Theorem masks_never_removed c c' :
  rtc loop_step (mkConfig App.initial []) c → rtc loop_step c c' →
  masks (app_state c) `prefix_of` masks (app_state c') ∧
  (is_Some (uploadedImage (app_state c)) → is_Some (uploadedImage (app_state c'))).
Proof.
  intros Hc Hrun.
  set (I := λ s, masks (app_state c) `prefix_of` masks s ∧
                 (is_Some (uploadedImage (app_state c)) → is_Some (uploadedImage s))).
  assert (∀ s o, Forall (stable I) (op_trace s o)) as Hall.
  { intros s o. apply op_trace_stable; intros; intros s' [Hp Hi]; split; cbn;
      eauto using prefix_app_r. }
  assert (config_inv I c') as [H _]; [| exact H].
  eapply (rtc_ind_r (λ c', config_inv I c')); [| | exact Hrun].
  - split; [by split | by apply reachable_pending].
  - intros c1 c2 _ Hstep Hc1. eapply loop_step_inv; [| exact Hstep | exact Hc1].
    intros s o _ Hs. by apply stable_whole_handler.
Qed.

Lemma masks_never_removed_witness :
  masks s_masked `prefix_of` masks s_colored ∧
  (is_Some (uploadedImage s_masked) → is_Some (uploadedImage s_colored)).
Proof.
  apply (masks_never_removed (mkConfig s_masked [[]; []])
                             (mkConfig s_colored [[]; []; []; []])).
  - etrans; [apply (run_op_steps App.initial
                      (SubmitImage photo preview_url upload_ok)); reflexivity |].
    apply (run_op_steps s_uploaded
             (RequestMaskAtPoint 100 150 1700000000000 masks_ok)). exact I.
  - etrans; [apply (run_op_steps s_masked (ToggleMaskSelection 1700000000000));
             vm_compute; apply list_elem_of_here |].
    apply (run_op_steps s_selected (AssignColor "#FF6B6B"%string)). exact I.
Defined.

Lemma has_image_stable s o :
  Forall (stable (λ s, uploadedImage s ≠ None)) (op_trace s o).
Proof. apply op_trace_stable; intros; intros s' Hs'; cbn; done. Qed.

Lemma until_await_quiet t :
  Forall (λ e, is_setState e = false) t →
  Forall (λ e, is_setState e = false) (until_await t).1 ∧
  Forall (λ e, is_setState e = false) (until_await t).2.
Proof. rewrite <- (until_await_split t) at 1. apply Forall_app. Qed.

(** Without an image the configuration is the initial state with waiting
    handlers that have no update left. *)
Lemma no_image_config c :
  rtc loop_step (mkConfig App.initial []) c →
  uploadedImage (app_state c) = None →
  app_state c = App.initial ∧
  Forall (Forall (λ e, is_setState e = false)) (pending c).
Proof.
  intros Hreach. revert c Hreach.
  apply (rtc_ind_r
           (λ c, uploadedImage (app_state c) = None →
                 app_state c = App.initial ∧
                 Forall (Forall (λ e, is_setState e = false)) (pending c))).
  { intros _. split; [done | constructor]. }
  intros c1 c2 Hreach1 Hstep IH Hnone.
  pose proof (reachable_pending _ c1 has_image_stable Hreach1) as Hpend.
  destruct Hstep as [s ts o Ho | s ts1 k ts2]; cbn in *.
  - assert (uploadedImage s = None) as Hs.
    { destruct (uploadedImage s) as [image |] eqn:E; [exfalso | done].
      destruct (until_await_stable _ _ (has_image_stable s o)) as [Hnow _].
      apply (exec_stable _ _ s Hnow); [by rewrite E | done]. }
    destruct (IH Hs) as [-> Hquiet].
    destruct o as [file preview net | x y now net | col | maskId |];
      cbn [op_trace offered] in *.
    + discriminate Hnone.
    + split; [done |]. by repeat constructor.
    + split; [done |]. by repeat constructor.
    + by apply elem_of_nil in Ho.
    + split; [done |]. by repeat constructor.
  - apply Forall_app in Hpend as [_ [Hk _]%Forall_cons].
    assert (uploadedImage s = None) as Hs.
    { destruct (uploadedImage s) as [image |] eqn:E; [exfalso | done].
      destruct (until_await_stable _ _ Hk) as [Hnow _].
      apply (exec_stable _ _ s Hnow); [by rewrite E | done]. }
    destruct (IH Hs) as [-> Hquiet].
    apply Forall_app in Hquiet as [H1 [Hkq H2]%Forall_cons].
    destruct (until_await_quiet k Hkq) as [Hnow Hlater].
    rewrite exec_quiet by done. split; [done |].
    apply Forall_app. split; [done |]. by apply Forall_cons.
Qed.

(** X5: as long as no image has been submitted the application is in
    its initial state: clicks, colours and downloads before the first
    upload change nothing; so a mask, a selection, a colour, an error or
    a step other than upload is only ever seen together with an image. *)
Theorem nothing_before_upload s :
  reachable s → uploadedImage s = None → s = App.initial.
Proof.
  intros [ts Hreach] Hnone. by apply (no_image_config (mkConfig s ts)).
Qed.

Lemma nothing_before_upload_witness :
  run_op (run_op App.initial (RequestMaskAtPoint 10 20 1 masks_ok))
         (AssignColor "#FF6B6B"%string) = App.initial.
Proof.
  apply nothing_before_upload; [| reflexivity].
  apply reachable_run_op; [| exact I].
  apply reachable_run_op; [apply reachable_initial | exact I].
Defined.

(** ** The handlers, run to completion *)





(** X8: a mask request that succeeds appends one mask whose identifier is
    the time of the answer and whose outline is the outline of the first
    mask of the response; the identifiers of the response and its other
    masks are not used, and nothing else changes but processing,
    progress and step. *)
Theorem requestMaskAtPoint_success s image x y now status first others message :
  uploadedImage s = Some image → isProcessing s = false → Api.ok status = true →
  let net := Api.FetchResponse status
               (Resolved {| gen_success := true; gen_masks := first :: others;
                            gen_message := message |}) in
  run_op s (RequestMaskAtPoint x y now net)
  = {| uploadedImage := uploadedImage s; imagePreview := imagePreview s;
       masks := masks s ++ [ {| mask_id := now;
                                mask_coordinates := mask_coordinates first;
                                mask_color := None |} ];
       selectedMasks := selectedMasks s; appliedColors := appliedColors s;
       isProcessing := false; progress := 100; error := None;
       currentStep := SColor |}.
Proof.
  intros Himg Hidle Hok net. subst net. unfold run_op. cbn [op_trace].
  rewrite (handleCanvasClick_accepted _ _ _ _ _ _ Himg Hidle).
  rewrite exec_app, mask_issued_exec.
  unfold App.mask_settled, Api.generateMasks. rewrite Hok. reflexivity.
Qed.

Lemma requestMaskAtPoint_success_witness :
  masks s_masked
  = [ {| mask_id := 1700000000000; mask_coordinates := [[1; 2]; [3; 4]]%Z;
         mask_color := None |} ].
Proof.
  pose proof (requestMaskAtPoint_success s_uploaded photo 100 150 1700000000000 200
                (mkMask 0 [[1; 2]; [3; 4]]%Z None) [] None
                eq_refl eq_refl eq_refl) as H.
  cbv zeta in H. fold masks_ok in H. fold s_masked in H. by rewrite H.
Defined.



(** X10: the last colour wins: assigning a colour and then another one
    to the same selection leaves the state that assigning the second
    colour alone gives; in particular assigning the same colour twice is
    the same as assigning it once. *)
Theorem assignColor_last_wins s c1 c2 :
  run_op (run_op s (AssignColor c1)) (AssignColor c2) = run_op s (AssignColor c2).
Proof.
  unfold run_op. cbn [op_trace]. unfold App.handleColorSelect.
  destruct (decide (length (selectedMasks s) = 0)) as [Hnone | Hsome].
  - cbn. by rewrite decide_True.
  - cbn. rewrite decide_False by done. cbn. unfold App.colors_applied. cbn.
    f_equal. apply map_eq. intros i. rewrite !lookup_colors_applied.
    by case_decide.
Qed.

(** ** What the step and the controls say about the state *)

Lemma colors_applied_nonempty (selected : list Z) (c : string) (m : gmap Z string) :
  selected ≠ [] → foldl (λ acc maskId, <[maskId := c]> acc) m selected ≠ ∅.
Proof.
  destruct selected as [| a selected]; [done |]. intros _ Hempty.
  apply (f_equal (λ m, m !! a)) in Hempty.
  rewrite lookup_colors_applied, lookup_empty in Hempty.
  rewrite decide_True in Hempty by left. done.
Qed.

(** X11: in every reachable state the step is upload exactly when no
    image has been submitted, the step color is only seen with at least
    one mask, and the step download only with at least one applied
    colour, so that the download button is enabled there. *)
Theorem step_meaning s :
  reachable s →
  (currentStep s = SUpload ↔ uploadedImage s = None) ∧
  (currentStep s = SColor → masks s ≠ []) ∧
  (currentStep s = SDownload →
   appliedColors s ≠ ∅ ∧ AppView.download_disabled s = false).
Proof.
  intros Hs.
  enough ((uploadedImage s ≠ None → currentStep s ≠ SUpload) ∧
          (currentStep s = SColor → masks s ≠ []) ∧
          (currentStep s = SDownload → appliedColors s ≠ ∅)) as (H1 & H2 & H3).
  { split; [| split; [done |]].
    - split.
      + intros Hstep. destruct (uploadedImage s) eqn:E; [| done].
        exfalso. by apply H1.
      + intros Hnone. destruct Hs as [ts Hts].
        destruct (no_image_config (mkConfig s ts) Hts Hnone) as [Hinit _].
        cbn in Hinit. by rewrite Hinit.
    - intros Hstep. split; [by apply H3 |].
      unfold AppView.download_disabled. apply bool_decide_eq_false.
      rewrite map_size_empty_iff. by apply H3. }
  revert s Hs. apply reachable_by_updaters;
    try (intros; intros s (H1 & H2 & H3); cbn; repeat split; try done).
  - intros _ Habs. by apply app_eq_nil in Habs as [_ ?].
  - done.
  - intros s c (H1 & H2 & H3). unfold App.handleColorSelect.
    case_decide as Hsel; [done |]. cbn. repeat split; try done.
    intros _. apply colors_applied_nonempty. by destruct (selectedMasks s).
  - done.
Qed.

Lemma step_meaning_witness :
  appliedColors s_colored ≠ ∅ ∧ AppView.download_disabled s_colored = false.
Proof.
  apply (step_meaning s_colored); [apply scenario_reachable | reflexivity].
Defined.

(** X12: the controls and the guards of the handlers agree: the palette
    is disabled exactly when [handleColorSelect] would refuse, the
    download button exactly when [handleDownload] would refuse, and in a
    reachable state where the canvas is shown a click on it is ignored
    only while a request is being processed. *)
Theorem controls_match_guards s :
  (∀ c, AppView.palette_disabled s = reports_error (App.handleColorSelect s c)) ∧
  AppView.download_disabled s = reports_error (App.handleDownload s) ∧
  (reachable s → AppView.canvas_shown s = true →
   ∀ x y now net, App.handleCanvasClick s x y now net = [] ↔ isProcessing s = true).
Proof.
  split; [| split].
  - intros c. unfold AppView.palette_disabled, App.handleColorSelect.
    by case_bool_decide; [rewrite decide_True | rewrite decide_False].
  - unfold AppView.download_disabled, App.handleDownload.
    by case_bool_decide; [rewrite decide_True | rewrite decide_False].
  - intros [ts Hs] Hshown x y now net.
    destruct (uploadedImage s) as [image |] eqn:Himg.
    + unfold App.handleCanvasClick. rewrite Himg.
      destruct (isProcessing s); [done |]. split; [| done].
      unfold App.mask_issued. discriminate.
    + destruct (no_image_config (mkConfig s ts) Hs Himg) as [Hinit _].
      cbn in Hinit. subst s. discriminate Hshown.
Qed.

Lemma controls_match_guards_witness :
  App.handleCanvasClick s_colored 1 2 3 masks_ok = [] ↔ isProcessing s_colored = true.
Proof.
  apply (proj2 (proj2 (controls_match_guards s_colored)));
    [apply scenario_reachable | reflexivity].
Defined.

(** ** The upload component, accepted files *)

(** X13: [validateFile] accepts a file exactly when its type is one of
    the four allowed and its size is at most 10485760 bytes (the bound
    itself included), and then raises no notice; the type is checked
    first, so a file that fails both checks gets the notice about the
    type. *)
Theorem validateFile_accepts file :
  ((ImageUpload.validateFile file).1 = true ↔
   file_type file ∈ ["image/jpeg"; "image/jpg"; "image/png"; "image/webp"]%string ∧
   (file_size file ≤ 10485760)%Z) ∧
  ((ImageUpload.validateFile file).1 = true → (ImageUpload.validateFile file).2 = []) ∧
  (file_type file ∉ ["image/jpeg"; "image/jpg"; "image/png"; "image/webp"]%string →
   ∃ description,
     (ImageUpload.validateFile file).2
     = [ ShowToast (mkToast "Invalid file type" description (Some "destructive"%string)) ]).
Proof.
  unfold ImageUpload.validateFile. fold ImageUpload.validTypes.
  case_bool_decide as Htype; cbn [negb].
  - destruct (Z.gtb_spec (file_size file) ImageUpload.maxSize) as [Hbig | Hsmall];
      cbn; unfold ImageUpload.maxSize in *.
    + split; [| done]. split; [done | lia].
    + split; [| done]. split; [intros _; split; [done | lia] | done].
  - cbn. split; [| split; [done | eauto]]. split; [done | by intros []].
Qed.

Lemma validateFile_accepts_witness :
  (ImageUpload.validateFile (mkFile "edge.png" "image/png" 10485760)).2 = [].
Proof.
  apply (proj1 (proj2 (validateFile_accepts
                         (mkFile "edge.png" "image/png" 10485760)))).
  reflexivity.
Defined.

Lemma exec_view_app t1 t2 v :
  ImageUpload.exec_view (t1 ++ t2)%list v
  = ImageUpload.exec_view t2 (ImageUpload.exec_view t1 v).
Proof. apply foldl_app. Qed.

Lemma validateFile_true file :
  (ImageUpload.validateFile file).1 = true → ImageUpload.validateFile file = (true, []).
Proof.
  unfold ImageUpload.validateFile.
  destruct (negb _); [done |]. by destruct (_ >? _)%Z.
Qed.

Lemma exec_skip t1 e t2 s :
  is_setState e = false → exec (t1 ++ e :: t2)%list s = exec (t1 ++ t2)%list s.
Proof. intros He. rewrite !exec_app. cbn. by destruct e. Qed.

Lemma remote_calls_cons e t :
  remote_calls (e :: t) = (if is_remote e then 1 else 0) + remote_calls t.
Proof. unfold remote_calls. rewrite filter_cons. by destruct (is_remote e). Qed.

Lemma state_updates_cons e t :
  state_updates (e :: t) = (if is_setState e then 1 else 0) + state_updates t.
Proof. unfold state_updates. rewrite filter_cons. by destruct (is_setState e). Qed.

Lemma state_updates_app t1 t2 :
  state_updates (t1 ++ t2)%list = state_updates t1 + state_updates t2.
Proof. unfold state_updates. by rewrite filter_app, length_app. Qed.

Lemma handleFile_accepted_trace onImageUpload file result :
  (ImageUpload.validateFile file).1 = true →
  ImageUpload.handleFile onImageUpload file (Some result)
  = (ReadAsDataURL file :: SetPreview (Some result)
       :: SetFileName (Some (file_name file))
       :: (until_await (onImageUpload file result)).1
       ++ ShowToast {| toast_title := "Image uploaded successfully";
                       toast_description :=
                         file_name file +:+
                         " has been uploaded and is ready for processing.";
                       toast_variant := None |}
       :: (until_await (onImageUpload file result)).2)%list.
Proof.
  intros Hvalid%validateFile_true. unfold ImageUpload.handleFile. rewrite Hvalid.
  cbn. by destruct (until_await (onImageUpload file result)).
Qed.

Lemma handleFile_accepted_exec onImageUpload file result s :
  (ImageUpload.validateFile file).1 = true →
  exec (ImageUpload.handleFile onImageUpload file (Some result)) s
  = exec (onImageUpload file result) s.
Proof.
  intros Hvalid. rewrite (handleFile_accepted_trace _ _ _ Hvalid).
  pose proof (until_await_split (onImageUpload file result)) as Hsplit.
  destruct (until_await (onImageUpload file result)) as [now later].
  cbn [fst snd] in *. rewrite <- Hsplit.
  change (exec (?a :: ?b :: ?c :: ?l) s) with (exec l s).
  apply exec_skip. reflexivity.
Qed.

(** X14: for an accepted file that the reader delivers, the component
    starts one read, and the application state ends as the controller's
    handler alone would leave it: the component adds no update, no
    remote call and no error notice of its own.  When the read fails
    nothing but the read is started. *)
Theorem handleFile_accepted onImageUpload file result s :
  (ImageUpload.validateFile file).1 = true →
  let t := ImageUpload.handleFile onImageUpload file (Some result) in
  head t = Some (ReadAsDataURL file) ∧
  exec t s = exec (onImageUpload file result) s ∧
  remote_calls t = remote_calls (onImageUpload file result) ∧
  state_updates t = state_updates (onImageUpload file result) ∧
  reports_error t = reports_error (onImageUpload file result) ∧
  ImageUpload.handleFile onImageUpload file None = [ReadAsDataURL file].
Proof.
  intros Hvalid t. subst t.
  split; [by rewrite (handleFile_accepted_trace _ _ _ Hvalid) |].
  split; [by apply handleFile_accepted_exec |].
  rewrite (handleFile_accepted_trace _ _ _ Hvalid).
  pose proof (until_await_split (onImageUpload file result)) as Hsplit.
  destruct (until_await (onImageUpload file result)) as [now later].
  cbn [fst snd] in *. rewrite <- Hsplit. split; [| split; [| split]].
  - rewrite !remote_calls_cons, !remote_calls_app, remote_calls_cons. done.
  - rewrite !state_updates_cons, !state_updates_app, state_updates_cons. done.
  - unfold reports_error. cbn. rewrite !existsb_app. done.
  - apply validateFile_true in Hvalid. unfold ImageUpload.handleFile.
    by rewrite Hvalid.
Qed.

Lemma handleFile_accepted_witness :
  exec (ImageUpload.handleFile
          (λ file preview, App.handleImageUpload file preview upload_ok)
          photo (Some preview_url)) App.initial
  = s_uploaded.
Proof.
  apply (handleFile_accepted
           (λ file preview, App.handleImageUpload file preview upload_ok)
           photo preview_url App.initial).
  reflexivity.
Defined.

(** X15: the component raises its notice "Image uploaded successfully"
    right after the controller's handler has returned from its
    synchronous part (its first update, the first update of the progress
    and the start of the first timer) and before everything else the
    handler does, the upload request included; so when the upload then
    fails, this notice has been shown and the failure notice follows. *)
Theorem upload_announced_before_outcome file result net :
  (ImageUpload.validateFile file).1 = true →
  ImageUpload.handleFile (λ f p, App.handleImageUpload f p net) file (Some result)
  = ([ ReadAsDataURL file; SetPreview (Some result);
       SetFileName (Some (file_name file));
       SetState (App.upload_started file result);
       SetState (App.set_progress 0); Sleep 100;
       ShowToast {| toast_title := "Image uploaded successfully";
                    toast_description :=
                      file_name file +:+
                      " has been uploaded and is ready for processing.";
                    toast_variant := None |} ]
     ++ drop 3 (App.handleImageUpload file result net))%list ∧
  App.handleImageUpload file result net
  = ([ SetState (App.upload_started file result);
       SetState (App.set_progress 0); Sleep 100 ]
     ++ drop 3 (App.handleImageUpload file result net))%list ∧
  RemoteUpload file ∈ drop 3 (App.handleImageUpload file result net) ∧
  remote_calls (drop 3 (App.handleImageUpload file result net)) = 1 ∧
  reports_error (drop 3 (App.handleImageUpload file result net))
  = reports_error (App.upload_settled net).
Proof.
  intros Hvalid. rewrite (handleFile_accepted_trace _ _ _ Hvalid).
  split; [reflexivity |]. split; [reflexivity |]. split.
  - cbn. do 20 apply list_elem_of_further. apply list_elem_of_here.
  - split; cbn; destruct (upload_settled_cases net) as [-> | [e ->]]; reflexivity.
Qed.

Lemma upload_announced_before_outcome_witness :
  RemoteUpload photo ∈ drop 3 (App.handleImageUpload photo preview_url offline) ∧
  reports_error (drop 3 (App.handleImageUpload photo preview_url offline))
  = reports_error (App.upload_settled offline).
Proof.
  pose proof (upload_announced_before_outcome photo preview_url offline eq_refl)
    as (_ & _ & Hin & _ & Herr).
  split; [exact Hin | exact Herr].
Defined.

Lemma exec_view_quiet t v :
  Forall (λ e, match e with SetPreview _ | SetFileName _ => False | _ => True end) t →
  ImageUpload.exec_view t v = v.
Proof.
  revert v. induction t as [| e t IH]; intros v Ht; [done |].
  apply Forall_cons in Ht as [He Ht]. cbn. rewrite <- (IH v Ht) at 2.
  by destruct e.
Qed.

Lemma handleImageUpload_view file preview net :
  Forall (λ e, match e with SetPreview _ | SetFileName _ => False | _ => True end)
         (App.handleImageUpload file preview net).
Proof.
  unfold App.handleImageUpload, App.upload_settled, App.upload_catch.
  destruct (Api.uploadImage net) as [r | e]; [destruct (upload_success r) |];
    by repeat constructor.
Qed.

(** X16: after an accepted file the component shows the preview and the
    name of the file; removing the image puts the component back to its
    empty state and leaves the application state as it is: the submitted
    image, its preview in the canvas, the masks and the colours stay. *)
Theorem remove_image_local file result net s v :
  (ImageUpload.validateFile file).1 = true →
  let t := ImageUpload.handleFile (λ f p, App.handleImageUpload f p net) file
             (Some result) in
  ImageUpload.exec_view t v = ImageUpload.mkView (Some result) (Some (file_name file)) ∧
  ImageUpload.exec_view (t ++ ImageUpload.handleRemoveImage) v
  = ImageUpload.initial_view ∧
  exec (t ++ ImageUpload.handleRemoveImage) s
  = run_op s (SubmitImage file result net) ∧
  uploadedImage (exec (t ++ ImageUpload.handleRemoveImage) s) = Some file.
Proof.
  intros Hvalid t.
  assert (ImageUpload.exec_view t v
          = ImageUpload.mkView (Some result) (Some (file_name file))) as Hview.
  { subst t. rewrite (handleFile_accepted_trace _ _ _ Hvalid).
    pose proof (handleImageUpload_view file result net) as Hq.
    rewrite <- (until_await_split (App.handleImageUpload file result net)) in Hq.
    apply Forall_app in Hq as [Hnow Hlater].
    change (ImageUpload.exec_view (?a :: ?b :: ?c :: ?l) v)
      with (ImageUpload.exec_view l
              (ImageUpload.mkView (Some result) (Some (file_name file)))).
    apply exec_view_quiet. apply Forall_app. split; [done |]. by apply Forall_cons. }
  assert (exec (t ++ ImageUpload.handleRemoveImage) s
          = run_op s (SubmitImage file result net)) as Hexec.
  { rewrite exec_app. subst t.
    by rewrite (handleFile_accepted_exec _ _ _ _ Hvalid). }
  split; [done |]. split; [by rewrite exec_view_app, Hview |].
  split; [done |]. rewrite Hexec. unfold run_op. cbn [op_trace].
  rewrite handleImageUpload_exec.
  destruct (upload_settled_cases net) as [-> | [e ->]]; reflexivity.
Qed.

Lemma remove_image_local_witness :
  uploadedImage
    (exec (ImageUpload.handleFile (λ f p, App.handleImageUpload f p upload_ok) photo
             (Some preview_url) ++ ImageUpload.handleRemoveImage) App.initial)
  = Some photo.
Proof.
  apply (remove_image_local photo preview_url upload_ok App.initial
           ImageUpload.initial_view).
  reflexivity.
Defined.

(** ** The recent colours *)

Section RecentColorsMore.
Import ColorPalette.

Lemma recent_selected_NoDup c (l : list string) :
  NoDup l → NoDup (recent_selected c l).
Proof.
  intros Hl. unfold recent_selected. apply NoDup_cons. split.
  - intros Hc.
    assert (c ∈ filter (λ x, x ≠ c) l) as Hc'
      by (eapply elem_of_sublist; [exact Hc | apply sublist_take]).
    apply list_elem_of_filter in Hc' as [Hne _]. done.
  - eapply sublist_NoDup; [| apply sublist_take]. by apply NoDup_filter.
Qed.

Lemma recentColors_NoDup history : NoDup (recentColors_after history).
Proof.
  induction history as [| a history IH] using rev_ind; [constructor |].
  rewrite recentColors_after_snoc. destruct a as [c | c]; cbn [act].
  - by apply recent_selected_NoDup.
  - by apply NoDup_filter.
Qed.

Lemma filter_ne_perm c (l : list string) :
  NoDup l → c ∈ l → c :: filter (λ x, x ≠ c) l ≡ₚ l.
Proof.
  induction l as [| a l IH]; intros Hl Hc; [by apply elem_of_nil in Hc |].
  apply NoDup_cons in Hl as [Ha Hl].
  destruct (decide (a = c)) as [-> | Hne].
  - rewrite filter_cons_False by (intros H; by apply H).
    rewrite filter_all; [done |]. intros x Hx ->. done.
  - rewrite filter_cons_True by done.
    apply elem_of_cons in Hc as [-> | Hc]; [done |].
    rewrite Permutation_swap. by rewrite IH.
Qed.
End RecentColorsMore.

Lemma recentColors_fill (colors : list string) :
  NoDup colors → length colors ≤ 8 →
  ColorPalette.recentColors_after (ColorPalette.Pick <$> colors) = reverse colors.
Proof.
  induction colors as [| c colors IH] using rev_ind; intros Hnd Hlen; [done |].
  apply NoDup_app in Hnd as (Hnd & Hc & _). rewrite length_app in Hlen. cbn in Hlen.
  rewrite fmap_app. change (ColorPalette.Pick <$> [c]) with [ColorPalette.Pick c].
  rewrite recentColors_after_snoc, IH by (done || lia).
  cbn [ColorPalette.act]. unfold ColorPalette.recent_selected.
  rewrite filter_all.
  - rewrite take_ge; [| rewrite length_reverse; lia]. symmetry. apply reverse_snoc.
  - intros x Hx Heq. apply (proj1 (elem_of_reverse _ _)) in Hx.
    apply (Hc x Hx). rewrite Heq. apply list_elem_of_here.
Qed.

(** C9: after any history of selections and removals the recent colours
    are at most 8, and a selected colour is put at the front.  A new
    colour selected on a list that is not full is added and every entry
    stays; a colour of the list, selected again, moves to the front and
    every entry stays; a new colour selected on a full list pushes out
    the last entry, which is the one whose latest selection is the
    oldest.  The list does fill up: up to eight distinct colours selected
    one after another are all kept, the latest first. *)
Theorem recentColors_bounded_oldest_evicted history :
  let l := ColorPalette.recentColors_after history in
  let picked color :=
    ColorPalette.recentColors_after (history ++ [ColorPalette.Pick color]) in
  length l ≤ 8 ∧
  (∀ color, head (picked color) = Some color) ∧
  (∀ color, color ∉ l → length l < 8 → picked color = color :: l) ∧
  (∀ color, color ∈ l →
     picked color = color :: filter (λ c, c ≠ color) l ∧
     length (picked color) = length l) ∧
  (∀ color,
     length l = 8 → color ∉ l →
     ∃ kept oldest,
       l = kept ++ [oldest] ∧ picked color = color :: kept ∧
       ∀ d, d ∈ kept → ColorPalette.fresher history d oldest) ∧
  (∀ colors : list string,
     NoDup colors → length colors ≤ 8 →
     ColorPalette.recentColors_after (ColorPalette.Pick <$> colors) = reverse colors).
Proof.
  intros l picked. subst picked. cbv beta.
  split; [apply recentColors_bounded |]. split; [| split; [| split; [| split]]].
  - intros color. by rewrite recentColors_after_snoc.
  - intros color Hnew Hlen. rewrite recentColors_after_snoc. cbn [ColorPalette.act].
    fold l. unfold ColorPalette.recent_selected.
    rewrite filter_all by (intros c Hc ->; done). by rewrite take_ge by lia.
  - intros color Hin. rewrite recentColors_after_snoc. cbn [ColorPalette.act].
    fold l. unfold ColorPalette.recent_selected.
    pose proof (recentColors_bounded history) as Hlen. fold l in Hlen.
    pose proof (length_filter_lt (λ c, c ≠ color) l color Hin) as Hlt.
    rewrite take_ge by (specialize (Hlt ltac:(intros H; by apply H)); lia).
    split; [done |].
    apply (Permutation_length
             (filter_ne_perm color l (recentColors_NoDup history) Hin)).
  - intros color Hfull Hnew.
    destruct (recent_selected_full color _ Hfull Hnew) as (kept & oldest & Hl & Hsel).
    exists kept, oldest. rewrite recentColors_after_snoc. cbn [ColorPalette.act].
    split; [done |]. split; [done |].
    intros d Hd. destruct (recentColors_by_recency history) as [_ Hsorted].
    fold l in Hsorted. rewrite Hl in Hsorted.
    apply (StronglySorted_app_1_elem_of _ _ _ _ _ Hsorted Hd).
    apply list_elem_of_singleton. done.
  - apply recentColors_fill.
Qed.

Lemma recentColors_bounded_oldest_evicted_witness :
  ColorPalette.recentColors_after eight_picks
  = ["#F7DC6F"; "#98D8C8"; "#DDA0DD"; "#FFEAA7"; "#96CEB4"; "#45B7D1"; "#4ECDC4";
     "#FF6B6B"]%string ∧
  ColorPalette.recentColors_after
    ((ColorPalette.Pick <$> ["#FF6B6B"; "#4ECDC4"]%string)
     ++ [ColorPalette.Pick "#45B7D1"%string])
  = ["#45B7D1"; "#4ECDC4"; "#FF6B6B"]%string ∧
  ∃ kept oldest,
    ColorPalette.recentColors_after eight_picks = kept ++ [oldest] ∧
    ColorPalette.recentColors_after (eight_picks ++ [ColorPalette.Pick "#A8E6CF"%string])
    = "#A8E6CF"%string :: kept ∧
    ∀ d, d ∈ kept → ColorPalette.fresher eight_picks d oldest.
Proof.
  split; [| split].
  - apply (proj2 (proj2 (proj2 (proj2 (proj2
             (recentColors_bounded_oldest_evicted []))))))
      with (colors := ["#FF6B6B"; "#4ECDC4"; "#45B7D1"; "#96CEB4"; "#FFEAA7";
                       "#DDA0DD"; "#98D8C8"; "#F7DC6F"]%string).
    + repeat (apply NoDup_cons; split;
              [intros H; repeat (apply elem_of_cons in H as [H | H];
                                 [discriminate H |]);
               by apply elem_of_nil in H |]).
      apply NoDup_nil. done.
    + cbn. lia.
  - etrans.
    { apply (proj1 (proj2 (proj2 (recentColors_bounded_oldest_evicted
               (ColorPalette.Pick <$> ["#FF6B6B"; "#4ECDC4"]%string))))
               "#45B7D1"%string).
      + vm_compute. intros H.
        repeat (apply elem_of_cons in H as [H | H]; [discriminate H |]).
        by apply elem_of_nil in H.
      + vm_compute. lia. }
    reflexivity.
  - apply (proj1 (proj2 (proj2 (proj2 (proj2
             (recentColors_bounded_oldest_evicted eight_picks)))))).
    + reflexivity.
    + vm_compute. intros H.
      repeat (apply elem_of_cons in H as [H | H]; [discriminate H |]).
      by apply elem_of_nil in H.
Defined.

(** X17: after any history of selections and removals no colour occurs
    twice among the recent colours. *)
Theorem recentColors_distinct history :
  NoDup (ColorPalette.recentColors_after history).
Proof. apply recentColors_NoDup. Qed.

(** X18: selecting a colour that is already among the recent colours
    moves it to the front and evicts nothing: the other colours keep
    their order and the list holds the same colours as before. *)
Theorem recentColors_reselect history color :
  color ∈ ColorPalette.recentColors_after history →
  ColorPalette.recentColors_after (history ++ [ColorPalette.Pick color])
  = color :: filter (λ c, c ≠ color) (ColorPalette.recentColors_after history) ∧
  ColorPalette.recentColors_after (history ++ [ColorPalette.Pick color])
  ≡ₚ ColorPalette.recentColors_after history.
Proof.
  intros Hin. rewrite recentColors_after_snoc. cbn [ColorPalette.act].
  unfold ColorPalette.recent_selected.
  pose proof (recentColors_bounded history) as Hlen.
  pose proof (length_filter_lt (λ c, c ≠ color) _ color Hin) as Hlt.
  rewrite take_ge by (specialize (Hlt ltac:(intros H; by apply H)); lia).
  split; [done |]. apply filter_ne_perm; [apply recentColors_NoDup | done].
Qed.

Lemma recentColors_reselect_witness :
  ColorPalette.recentColors_after (eight_picks ++ [ColorPalette.Pick "#45B7D1"%string])
  ≡ₚ ColorPalette.recentColors_after eight_picks.
Proof.
  apply (recentColors_reselect eight_picks "#45B7D1"%string).
  vm_compute. do 5 apply list_elem_of_further. apply list_elem_of_here.
Defined.

(** X19: selecting the same colour twice in a row leaves the recent
    colours as after the first selection, from any list. *)
Theorem recent_selected_idempotent color (l : list string) :
  ColorPalette.recent_selected color (ColorPalette.recent_selected color l)
  = ColorPalette.recent_selected color l.
Proof.
  unfold ColorPalette.recent_selected at 1 3.
  set (rest := take 7 (filter (λ c, c ≠ color) l)).
  unfold ColorPalette.recent_selected. fold rest.
  rewrite filter_cons_False by (intros H; by apply H).
  assert (filter (λ c, c ≠ color) rest = rest) as ->.
  { apply filter_all. intros x Hx.
    assert (x ∈ filter (λ c, c ≠ color) l) as Hx'
      by (eapply elem_of_sublist; [exact Hx | apply sublist_take]).
    by apply list_elem_of_filter in Hx' as [? _]. }
  rewrite take_ge; [done |]. subst rest. rewrite length_take. lia.
Qed.

(** X20: removing a colour takes it out of the recent colours and keeps
    the others in their order; the list gets one entry shorter when the
    colour was there and is unchanged when it was not. *)
Theorem recentColors_remove history color :
  let l := ColorPalette.recentColors_after history in
  let l' := ColorPalette.recentColors_after (history ++ [ColorPalette.Remove color]) in
  (color ∉ l') ∧ l' `sublist_of` l ∧
  (∀ d, d ≠ color → (d ∈ l' ↔ d ∈ l)) ∧
  (color ∈ l → S (length l') = length l) ∧
  (color ∉ l → l' = l).
Proof.
  intros l l'. subst l'. rewrite recentColors_after_snoc. cbn [ColorPalette.act].
  fold l. unfold ColorPalette.removeRecentColor. repeat split.
  - intros [Hne _]%list_elem_of_filter. done.
  - apply sublist_filter.
  - by intros [_ ?]%list_elem_of_filter.
  - intros Hd. by apply list_elem_of_filter.
  - intros Hin.
    pose proof (filter_ne_perm color l (recentColors_NoDup history) Hin) as Hperm.
    apply Permutation_length in Hperm. exact Hperm.
  - intros Hout. apply filter_all. intros x Hx ->. done.
Qed.

Lemma recentColors_remove_witness :
  S (length (ColorPalette.recentColors_after
               (eight_picks ++ [ColorPalette.Remove "#45B7D1"%string])))
  = length (ColorPalette.recentColors_after eight_picks).
Proof.
  apply (recentColors_remove eight_picks "#45B7D1"%string).
  vm_compute. do 5 apply list_elem_of_further. apply list_elem_of_here.
Defined.

(** ** The status component *)

(** X21: the steps of the progress list are marked done from the top:
    the marks are some number of done steps followed by the steps not
    yet done; all five are done exactly from progress 100 on, and none
    exactly up to progress 0. *)
Theorem steps_done_from_top p :
  ∃ k, k ≤ 5 ∧
       (ProcessingStates.steps p).*2 = replicate k true ++ replicate (5 - k) false ∧
       (k = 5 ↔ (100 ≤ ProcessingStates.p_progress p)%Z) ∧
       (k = 0 ↔ (ProcessingStates.p_progress p ≤ 0)%Z).
Proof.
  unfold ProcessingStates.steps. cbn [fmap list_fmap snd].
  rewrite Z.geb_leb.
  destruct (Z.gtb_spec (ProcessingStates.p_progress p) 0),
    (Z.gtb_spec (ProcessingStates.p_progress p) 20),
    (Z.gtb_spec (ProcessingStates.p_progress p) 50),
    (Z.gtb_spec (ProcessingStates.p_progress p) 80),
    (Z.leb_spec 100 (ProcessingStates.p_progress p)); try lia;
    [exists 5 | exists 4 | exists 3 | exists 2 | exists 1 | exists 0];
    (split; [lia |]); (split; [reflexivity |]); split; split; intros; lia.
Qed.

Lemma masksGenerated_positive s :
  (ProcessingStates.p_masksGenerated (AppView.processing_props s) >? 0)%Z
  = negb (bool_decide (ProcessingStates.p_masksGenerated (AppView.processing_props s)
                       = 0%Z)).
Proof.
  cbn. destruct (masks s) as [| m l]; cbn; [done |].
  by rewrite bool_decide_eq_false_2.
Qed.

(** X22: what the status card shows for a state of the application: the
    instructions are shown only when nothing is processed, no error is
    there and no mask exists, and then the status reads Ready and
    neither the progress bar, the error box nor the success message is
    shown; the success message depends on the masks and the processing
    flag only, so it stays next to an error; without error and
    processing exactly one of instructions and success message is
    shown. *)
Theorem status_card_blocks s :
  let p := AppView.processing_props s in
  (ProcessingStates.shows_instructions p = true ↔
   ProcessingStates.getStatusText p = "Ready"%string) ∧
  (ProcessingStates.shows_instructions p = true →
   ProcessingStates.shows_progress p = false ∧
   ProcessingStates.shows_error p = false ∧
   ProcessingStates.shows_success p = false) ∧
  (ProcessingStates.shows_success p = true ↔ masks s ≠ [] ∧ isProcessing s = false) ∧
  (isProcessing s = false → truthy (error s) = false →
   ProcessingStates.shows_instructions p = negb (ProcessingStates.shows_success p)).
Proof.
  intros p. subst p.
  unfold ProcessingStates.shows_instructions, ProcessingStates.shows_success,
    ProcessingStates.shows_progress, ProcessingStates.shows_error,
    ProcessingStates.getStatusText.
  rewrite masksGenerated_positive. cbn.
  destruct (isProcessing s), (truthy (error s)), (masks s) as [| m l]; cbn;
    rewrite ?bool_decide_eq_false_2 by done; cbn;
    repeat split; try done; by intros [].
Qed.

Lemma status_card_blocks_witness :
  ProcessingStates.shows_progress (AppView.processing_props App.initial) = false ∧
  ProcessingStates.shows_error (AppView.processing_props App.initial) = false ∧
  ProcessingStates.shows_success (AppView.processing_props App.initial) = false.
Proof.
  apply (proj1 (proj2 (status_card_blocks App.initial))). reflexivity.
Defined.



Lemma truthy_or_default a b : b ≠ EmptyString → truthy (Some (or_default a b)) = true.
Proof. intros Hb. destruct a as [[| ? ?] |]; cbn; try done; by destruct b. Qed.

(** X24: a response with [success: false] always ends with the status
    Error and the error box on display, whatever message it carries or
    lacks; a rejected call does so exactly when the message of its error
    is not empty: with an empty message the failure notice is raised but
    the status card shows no error. *)
Theorem failure_on_status_card s :
  (∀ file preview status r,
     Api.ok status = true → upload_success r = false →
     ProcessingStates.getStatusText
       (AppView.processing_props
          (run_op s (SubmitImage file preview
                       (Api.FetchResponse status (Resolved r)))))
     = "Error"%string) ∧
  (∀ file preview message,
     let s' := run_op s (SubmitImage file preview
                           (Api.FetchRejected (ErrorObj message))) in
     reports_error (op_trace s (SubmitImage file preview
                                  (Api.FetchRejected (ErrorObj message)))) = true ∧
     (ProcessingStates.getStatusText (AppView.processing_props s') = "Error"%string
      ↔ message ≠ EmptyString) ∧
     (ProcessingStates.shows_error (AppView.processing_props s') = true
      ↔ message ≠ EmptyString)).
Proof.
  split.
  - intros file preview status r Hok Hflag. unfold run_op. cbn [op_trace].
    rewrite handleImageUpload_exec.
    unfold App.upload_settled, Api.uploadImage. rewrite Hok. cbn [negb].
    rewrite Hflag. unfold ProcessingStates.getStatusText. cbn -[or_default truthy].
    by rewrite truthy_or_default.
  - intros file preview message s'. subst s'. split; [reflexivity |].
    unfold run_op. cbn [op_trace]. rewrite handleImageUpload_exec.
    unfold ProcessingStates.getStatusText, ProcessingStates.shows_error. cbn.
    destruct message as [| a m]; cbn; [| by split].
    split; (split; [| done]).
    + destruct (masks s); discriminate.
    + discriminate.
Qed.

Lemma failure_on_status_card_witness :
  ProcessingStates.getStatusText
    (AppView.processing_props
       (run_op App.initial (SubmitImage photo preview_url upload_flagged)))
  = "Error"%string.
Proof.
  apply (proj1 (failure_on_status_card App.initial) photo preview_url 200%Z
           (mkUploadResponse false None (Some "disk full"%string)));
    reflexivity.
Defined.

(** ** The API client, once more *)

(** X25: a call of the API client resolves exactly when the response has
    a status from 200 to 299 and its body can be read, and then with
    that body; [makeRequest] (behind [applyColor] and [healthCheck])
    writes one line to the console for every call it rejects, with the
    error it rejects with, and none for a call that resolves. *)
Theorem api_resolves_iff (T : Type) (net : Api.Fetch T) (upload : Api.Fetch UploadResponse)
    (generate : Api.Fetch GenerateMasksResponse) :
  (∀ a, (Api.makeRequest net).1 = Resolved a ↔
        ∃ status, net = Api.FetchResponse status (Resolved a) ∧
                  (200 ≤ status ≤ 299)%Z) ∧
  (∀ a, Api.downloadResult net = Resolved a ↔
        ∃ status, net = Api.FetchResponse status (Resolved a) ∧
                  (200 ≤ status ≤ 299)%Z) ∧
  (∀ a, Api.uploadImage upload = Resolved a ↔
        ∃ status, upload = Api.FetchResponse status (Resolved a) ∧
                  (200 ≤ status ≤ 299)%Z) ∧
  (∀ a, Api.generateMasks generate = Resolved a ↔
        ∃ status, generate = Api.FetchResponse status (Resolved a) ∧
                  (200 ≤ status ≤ 299)%Z) ∧
  (Api.makeRequest net).2
  = match (Api.makeRequest net).1 with
    | Resolved _ => []
    | Rejected e => [e]
    end.
Proof.
  assert (∀ status, Api.ok status = true ↔ (200 ≤ status ≤ 299)%Z) as Hok.
  { intros status. unfold Api.ok. rewrite andb_true_iff, !Z.leb_le. done. }
  unfold Api.makeRequest, Api.downloadResult, Api.uploadImage, Api.generateMasks.
  repeat split.
  - destruct net as [e | status [b | e]]; try destruct (Api.ok status) eqn:E;
      cbn; try done.
    intros [= ->]. exists status. split; [done | by apply Hok].
  - intros [status [-> Hs%Hok]]. by rewrite Hs.
  - destruct net as [e | status [b | e]]; try destruct (Api.ok status) eqn:E;
      cbn; try done.
    intros [= ->]. exists status. split; [done | by apply Hok].
  - intros [status [-> Hs%Hok]]. by rewrite Hs.
  - destruct upload as [e | status [b | e]]; try destruct (Api.ok status) eqn:E;
      cbn; try done.
    intros [= ->]. exists status. split; [done | by apply Hok].
  - intros [status [-> Hs%Hok]]. by rewrite Hs.
  - destruct generate as [e | status [b | e]]; try destruct (Api.ok status) eqn:E;
      cbn; try done.
    intros [= ->]. exists status. split; [done | by apply Hok].
  - intros [status [-> Hs%Hok]]. by rewrite Hs.
  - destruct net as [e | status [b | e]]; try destruct (Api.ok status); done.
Qed.
